(** * stack-tabs: the position calculator and the filter engine

    A shallow embedding of [src/extension.ts] (class [TabStacker], the
    [variables] table and [resolveVariables]) together with the properties
    the specification states about them.

    Conventions of the embedding:
    - a JavaScript [number] that holds an index, a distance or a padding is
      a [Z]; an index outside the array gives [undefined], here [None];
      the source computes in doubles, which are exact on the integers up
      to [2^53], and a statement that lets a configured number grow says
      how far;
    - a function that returns [number | undefined] returns [option Z];
    - a JavaScript string is a [string]; each character stands for one
      code unit below 256;
    - a [vscode.Tab] is an object: it has an identity, the field [tabRef],
      and [===] (so [Array.prototype.indexOf]) compares identities;
    - a call that can raise returns an [Outcome]. *)

From Stdlib Require Import ZArith Lia Sorted Permutation Ascii.
From stdpp Require Import base option list strings gmap.

Local Open Scope Z_scope.

(** ** Data model *)

(** [vscode.Uri]: the two fields the extension reads. *)
Record Uri := { uri_path : string; fsPath : string }.

(** [tab.input], told apart in the source with [instanceof]. *)
Inductive TabInput :=
| TabInputText (uri : Uri)
| TabInputTextDiff (original modified : Uri)
| TabInputCustom (uri : Uri) (viewType : string)
| TabInputWebview (viewType : string)
| TabInputNotebook (uri : Uri) (notebookType : string)
| TabInputNotebookDiff (original modified : Uri) (notebookType : string)
| TabInputTerminal
| TabInputUnknown.

(** [vscode.Tab].  [tabRef] is the identity of the object. *)
Record Tab := {
  tabRef : nat;
  label : string;
  isActive : bool;
  isDirty : bool;
  isPinned : bool;
  isPreview : bool;
  input : TabInput
}.

(** [typeof this.defaultOptions].  [direction] is declared
    ["left" | "right" | "auto"], but it is read from the configuration
    unchecked, so any string can arrive. *)
Record Options := {
  blockMoveFilters : list string;
  direction : option string;
  padding : option Z;
  enabled : option bool
}.

(** The type of the [isBlockingPredicate] parameter. *)
Definition Predicate := Tab -> Options -> bool.

(** ** Array helpers *)

(** [a === b] on tab objects. *)
Definition sameObject (a b : Tab) : bool := Nat.eqb (tabRef a) (tabRef b).

(** [tabs.indexOf(tab)], scanning from position [k]. *)
Fixpoint indexOfFrom (k : Z) (tabs : list Tab) (tab : Tab) : Z :=
  match tabs with
  | [] => -1
  | t :: rest => if sameObject t tab then k else indexOfFrom (k + 1) rest tab
  end.

Definition indexOf (tabs : list Tab) (tab : Tab) : Z := indexOfFrom 0 tabs tab.

(** [tabs[i]]: [undefined] outside the array. *)
Definition tabAt (tabs : list Tab) (i : Z) : option Tab :=
  if i <? 0 then None else tabs !! Z.to_nat i.

(** [Array.prototype.findLast]: the last element that satisfies [p]. *)
Fixpoint findLast (p : Z -> bool) (l : list Z) : option Z :=
  match l with
  | [] => None
  | x :: rest =>
      match findLast p rest with
      | Some y => Some y
      | None => if p x then Some x else None
      end
  end.

(** ** The position calculator *)

(** [blockingTabIndexes]: filter, then map each survivor to its
    [indexOf].  An array is always truthy, so the [if (tabs)] branch is
    the only one. *)
Definition blockingTabIndexes (tabs : list Tab)
    (isBlockingPredicate : Predicate) (options : Options) : list Z :=
  List.map (fun tab => indexOf tabs tab)
           (List.filter (fun tab => isBlockingPredicate tab options) tabs).

(** [if (padding)]: a number is truthy when it is not zero. *)
Definition truthyNumber (padding : option Z) : option Z :=
  match padding with
  | Some p => if p =? 0 then None else Some p
  | None => None
  end.

(** [getStackPosition].  The diagnostics written to the console are left
    out; they do not change the result. *)
Definition getStackPosition (currentTabIndex : Z) (tabs : list Tab)
    (isBlockingPredicate : Predicate) (options : Options) : option Z :=
  match tabAt tabs currentTabIndex with
  | None => None
  | Some current =>
      if isBlockingPredicate current options then None
      else
        let filteredIndexes :=
          blockingTabIndexes tabs isBlockingPredicate options in
        let moveDelta :=
          match direction options with
          | Some d =>
              if String.eqb d "left" then
                let moveDelta :=
                  match findLast (fun index => index <? currentTabIndex)
                                 filteredIndexes with
                  | None => Z.abs (0 - currentTabIndex)
                  | Some blockingIndex => currentTabIndex - blockingIndex - 1
                  end in
                match truthyNumber (padding options) with
                | Some p => Z.max 0 (moveDelta - p)
                | None => moveDelta
                end
              else if String.eqb d "right" then
                let moveDelta :=
                  match List.find (fun index => currentTabIndex <? index)
                                  filteredIndexes with
                  | None => Z.of_nat (length tabs) - currentTabIndex - 1
                  | Some blockingIndex => blockingIndex - currentTabIndex - 1
                  end in
                match truthyNumber (padding options) with
                | Some p => Z.max 0 (moveDelta - p)
                | None => moveDelta
                end
              else -1
          | None => -1
          end in
        if moveDelta <? 0 then None else Some moveDelta
  end.

(** [i] is a blocking index of [tabs]. *)
Definition blockingAt (tabs : list Tab) (isBlockingPredicate : Predicate)
    (options : Options) (i : Z) : Prop :=
  exists t, tabAt tabs i = Some t /\ isBlockingPredicate t options = true.

(** The tabs of the sequence are pairwise distinct objects. *)
Definition distinctTabs (tabs : list Tab) : Prop :=
  NoDup (List.map tabRef tabs).

(** ** Strings *)

Local Open Scope string_scope.

(** [s.startsWith(p)]. *)
Definition startsWith (s p : string) : bool := String.prefix p s.

(** [s.slice(n)]. *)
Fixpoint dropString (n : nat) (s : string) : string :=
  match n, s with
  | O, _ => s
  | S n', String _ rest => dropString n' rest
  | S _, EmptyString => EmptyString
  end.

(** [s.includes(sub)]. *)
Fixpoint includes (s sub : string) : bool :=
  String.prefix sub s ||
  match s with
  | EmptyString => false
  | String _ rest => includes rest sub
  end.

(** [s.replace(pat, "")] for a string [pat]: the first occurrence of
    [pat] is removed (the replacement [""] holds no [$] pattern). *)
Fixpoint removeFirst (pat s : string) : string :=
  if String.prefix pat s then dropString (String.length pat) s
  else match s with
       | EmptyString => EmptyString
       | String c rest => String c (removeFirst pat rest)
       end.

(** White space and line terminators of ECMAScript among the code units
    below 256: TAB, LF, VT, FF, CR, SP and NBSP. *)
Definition isWhiteSpace (c : Ascii.ascii) : bool :=
  let n := Ascii.nat_of_ascii c in
  ((9 <=? n) && (n <=? 13) || (n =? 32) || (n =? 160))%nat.

Fixpoint trimStart (s : string) : string :=
  match s with
  | String c rest => if isWhiteSpace c then trimStart rest else s
  | EmptyString => EmptyString
  end.

Fixpoint trimEnd (s : string) : string :=
  match s with
  | EmptyString => EmptyString
  | String c rest =>
      match trimEnd rest with
      | EmptyString => if isWhiteSpace c then EmptyString
                       else String c EmptyString
      | kept => String c kept
      end
  end.

(** [s.trim()]. *)
Definition trim (s : string) : string := trimEnd (trimStart s).

(** [s.split(sep).pop()] for a one-character separator: what follows
    the last [sep], the whole of [s] when there is none. *)
Fixpoint lastSegmentFrom (sep : Ascii.ascii) (acc s : string) : string :=
  match s with
  | EmptyString => acc
  | String c rest =>
      if Ascii.eqb c sep then lastSegmentFrom sep EmptyString rest
      else lastSegmentFrom sep (acc +:+ String c EmptyString) rest
  end.

Definition lastSegment (sep : Ascii.ascii) (s : string) : string :=
  lastSegmentFrom sep EmptyString s.

(** [GetSubstitution] of ECMAScript for a pattern without capture
    groups: in the replacement text [$$] gives [$], [$&] the matched
    text, [$`] the text before the match and [$'] the text after it; any
    other [$] stands for itself. *)
Fixpoint getSubstitution (matched before after template : string) : string :=
  match template with
  | EmptyString => EmptyString
  | String c rest =>
      if Ascii.eqb c "$"%char then
        match rest with
        | String d rest' =>
            if Ascii.eqb d "$"%char then
              String "$"%char (getSubstitution matched before after rest')
            else if Ascii.eqb d "&"%char then
              matched +:+ getSubstitution matched before after rest'
            else if Ascii.eqb d "`"%char then
              before +:+ getSubstitution matched before after rest'
            else if Ascii.eqb d "'"%char then
              after +:+ getSubstitution matched before after rest'
            else String c (getSubstitution matched before after rest)
        | EmptyString => String c EmptyString
        end
      else String c (getSubstitution matched before after rest)
  end.

(** [s.replace(re, template)] where [re] is a global regular expression
    that matches the literal, non-empty text [pat].  The matches are
    found left to right in the original string and do not overlap; the
    text put in for a match is not searched again.  [before] is the part
    of the original string already passed, [skip] counts the characters
    of the current match still to pass. *)
Fixpoint replaceAllFrom (pat template before : string) (skip : nat)
    (s : string) : string :=
  match s with
  | EmptyString => EmptyString
  | String c rest =>
      match skip with
      | S skip' =>
          replaceAllFrom pat template (before +:+ String c EmptyString)
                         skip' rest
      | O =>
          if String.prefix pat s then
            getSubstitution pat before (dropString (String.length pat) s)
                            template
            +:+ replaceAllFrom pat template (before +:+ String c EmptyString)
                               (Nat.pred (String.length pat)) rest
          else
            String c (replaceAllFrom pat template
                                     (before +:+ String c EmptyString) O rest)
      end
  end.

Definition replaceAll (pat template s : string) : string :=
  replaceAllFrom pat template EmptyString O s.

(** ** The host *)

(** What a call can do: return a value or raise. *)
Inductive JsError := TypeError.

Inductive Outcome (A : Type) :=
| Returns (a : A)
| Throws (e : JsError).
Arguments Returns {A} a.
Arguments Throws {A} e.

(** [vscode.TextDocument] and [vscode.NotebookDocument]; a notebook
    has no [languageId]. *)
Record Document := {
  doc_uri : Uri;
  doc_isUntitled : bool;
  doc_languageId : option string
}.

(** [vscode.WorkspaceFolder]. *)
Record WorkspaceFolder := { wf_uri : Uri }.

(** The state of the editor and of the process that the extension
    reads, and the library functions it calls: [process.env],
    [process.cwd()], [vscode.window], [vscode.workspace], Node's [path]
    and [micromatch.isMatch] (with the [windows] option of the platform;
    it may raise on a pattern it refuses).  [documentCache] holds the
    entries of the module's cache whose document is still alive. *)
Record Host := {
  env_HOME : option string;
  env_USERPROFILE : option string;
  process_cwd : string;
  activeTextEditor : option Document;
  activeNotebookEditor : option Document;
  visibleTextEditors : list Document;
  textDocuments : list Document;
  documentCache : gmap string Document;
  getWorkspaceFolder : Uri -> option WorkspaceFolder;
  path_sep : ascii;
  path_relative : string -> string -> string;
  path_dirname : string -> string;
  path_basename : string -> string;
  path_extname : string -> string;
  path_parse_name : string -> string;
  isMatch : string -> string -> Outcome bool
}.

(** [a || b] on strings: the empty string is falsy. *)
Definition orString (a : option string) (b : string) : string :=
  match a with
  | Some (String c rest) => String c rest
  | _ => b
  end.

Definition pathIs (uri : Uri) (d : Document) : bool :=
  String.eqb (uri_path (doc_uri d)) (uri_path uri).

(** [e?.document.uri.path === uri.path ? e.document : undefined]. *)
Definition whenPathIs (uri : Uri) (d : option Document) : option Document :=
  match d with
  | Some d => if pathIs uri d then Some d else None
  | None => None
  end.

(** [getDocument].  The result is stored in the cache under the same
    path, so a second call in the same run gives the same document; the
    store is not threaded. *)
Definition getDocument (h : Host) (uri : Uri) : option Document :=
  match documentCache h !! uri_path uri with
  | Some cached => Some cached
  | None =>
      match whenPathIs uri (activeTextEditor h) with
      | Some d => Some d
      | None =>
          match whenPathIs uri (activeNotebookEditor h) with
          | Some d => Some d
          | None =>
              match List.find (pathIs uri) (visibleTextEditors h) with
              | Some d => Some d
              | None => List.find (pathIs uri) (textDocuments h)
              end
          end
      end
  end.

(** [getTabUri]. *)
Definition getTabUri (tab : Tab) : option Uri :=
  match input tab with
  | TabInputText uri | TabInputNotebook uri _ | TabInputCustom uri _ =>
      Some uri
  | _ => None
  end.

(** [getActiveFileUri]. *)
Definition getActiveFileUri (h : Host) : option Uri :=
  match activeTextEditor h with
  | Some d => Some (doc_uri d)
  | None => doc_uri <$> activeNotebookEditor h
  end.

(** [getActiveWorkspaceFolder]. *)
Definition getActiveWorkspaceFolder (h : Host) : option WorkspaceFolder :=
  match getActiveFileUri h with
  | None => None
  | Some u => getWorkspaceFolder h u
  end.

(** ** The variable resolver *)

(** The [args] of [resolveVariables]. *)
Record Args := {
  arg_document : option Document;
  arg_workspaceFolder : option WorkspaceFolder
}.

Definition noArgs : Args :=
  {| arg_document := None; arg_workspaceFolder := None |}.

Module variables.

Definition userHome (h : Host) (args : Args) : string :=
  orString (env_HOME h) (orString (env_USERPROFILE h) "").

Definition workspaceFolder (h : Host) (args : Args) : string :=
  let folder :=
    match arg_workspaceFolder args with
    | Some w => Some w
    | None => getActiveWorkspaceFolder h
    end in
  default "" (fsPath <$> (wf_uri <$> folder)).

Definition workspaceFolderBasename (h : Host) (args : Args) : string :=
  lastSegment (path_sep h) (workspaceFolder h args).

(** [args.document?.uri ?? getActiveFileUri()]. *)
Definition documentUri (h : Host) (args : Args) : option Uri :=
  match arg_document args with
  | Some d => Some (doc_uri d)
  | None => getActiveFileUri h
  end.

Definition file (h : Host) (args : Args) : string :=
  default "" (fsPath <$> documentUri h args).

Definition fileWorkspaceFolder (h : Host) (args : Args) : string :=
  match documentUri h args with
  | Some u => default "" (fsPath <$> (wf_uri <$> getWorkspaceFolder h u))
  | None => ""
  end.

Definition relativeFile (h : Host) (args : Args) : string :=
  path_relative h (file h args) (fileWorkspaceFolder h args).

Definition relativeFileDirname (h : Host) (args : Args) : string :=
  path_dirname h (relativeFile h args).

Definition fileBasename (h : Host) (args : Args) : string :=
  path_basename h (file h args).

Definition fileBasenameNoExtension (h : Host) (args : Args) : string :=
  path_parse_name h (file h args).

Definition fileExtname (h : Host) (args : Args) : string :=
  path_extname h (file h args).

Definition fileDirname (h : Host) (args : Args) : string :=
  path_dirname h (file h args).

Definition fileDirnameBasename (h : Host) (args : Args) : string :=
  path_basename h (fileDirname h args).

Definition cwd (h : Host) (args : Args) : string := process_cwd h.

Definition pathSeparator (h : Host) (args : Args) : string :=
  String (path_sep h) EmptyString.

(** [Object.entries(variables)]: the producers in the order in which
    the object literal lists them. *)
Definition entries : list (string * (Host -> Args -> string)) :=
  [ ("userHome", userHome);
    ("workspaceFolder", workspaceFolder);
    ("workspaceFolderBasename", workspaceFolderBasename);
    ("file", file);
    ("fileWorkspaceFolder", fileWorkspaceFolder);
    ("relativeFile", relativeFile);
    ("relativeFileDirname", relativeFileDirname);
    ("fileBasename", fileBasename);
    ("fileBasenameNoExtension", fileBasenameNoExtension);
    ("fileExtname", fileExtname);
    ("fileDirname", fileDirname);
    ("fileDirnameBasename", fileDirnameBasename);
    ("cwd", cwd);
    ("pathSeparator", pathSeparator);
    ("/", pathSeparator) ].

End variables.

(** [variablePattern[k]] is [new RegExp("\\$\\{k}", "g")]: it matches
    the text [${k}] and nothing else, since no name of the table holds a
    character that is special in a regular expression. *)
Definition variablePattern (k : string) : string := "${" +:+ k +:+ "}".

(** One turn of the [forEach] of [resolveVariables]. *)
Definition substitutePass (h : Host) (args : Args) (resolved : string)
    (entry : string * (Host -> Args -> string)) : string :=
  replaceAll (variablePattern (fst entry)) (snd entry h args) resolved.

(** The turns of the entries from position [n] on. *)
Definition passesFrom (n : nat) (h : Host) (args : Args) (s : string)
  : string :=
  fold_left (substitutePass h args) (drop n variables.entries) s.

(** [resolveVariables]. *)
Definition resolveVariables (h : Host) (value : string) (args : Args)
  : string :=
  fold_left (substitutePass h args) variables.entries value.

(** ** The filter registry and the custom filters *)

(** [x instanceof C] for the classes of [tab.input]. *)
Definition isText (t : Tab) : bool :=
  match input t with TabInputText _ => true | _ => false end.
Definition isTextDiff (t : Tab) : bool :=
  match input t with TabInputTextDiff _ _ => true | _ => false end.
Definition isNotebook (t : Tab) : bool :=
  match input t with TabInputNotebook _ _ => true | _ => false end.
Definition isNotebookDiff (t : Tab) : bool :=
  match input t with TabInputNotebookDiff _ _ _ => true | _ => false end.
Definition isWebview (t : Tab) : bool :=
  match input t with TabInputWebview _ => true | _ => false end.
Definition isTerminal (t : Tab) : bool :=
  match input t with TabInputTerminal => true | _ => false end.

(** The [untitled] entry of [filterMap]; the truthiness of its result. *)
Definition isUntitledTab (h : Host) (t : Tab) : bool :=
  match input t with
  | TabInputText uri | TabInputNotebook uri _ =>
      match getDocument h uri with
      | Some d => doc_isUntitled d
      | None => false
      end
  | _ => false
  end.

(** The own properties of [filterMap], in the order of the literal. *)
Definition filterMapOwn : list (string * (Host -> Tab -> bool)) :=
  [ ("pinned", fun _ t => isPinned t);
    ("dirty", fun _ t => isDirty t);
    ("preview", fun _ t => isPreview t);
    ("text", fun _ t => isText t);
    ("diff", fun _ t => isTextDiff t);
    ("notebook", fun _ t => isNotebook t);
    ("notebook_diff", fun _ t => isNotebookDiff t);
    ("webview", fun _ t => isWebview t);
    ("terminal", fun _ t => isTerminal t);
    ("untitled", isUntitledTab) ].

(** [filterMap] is an object literal, so its prototype is
    [Object.prototype] and [filterMap[f]] also finds what that object
    holds.  The source calls the value found as [m(tab)], a plain call in
    module (strict) code, so [this] is [undefined] in the callee:
    - [constructor] is [Object]; [Object(tab)] is [tab];
    - [toString] gives the text [[object Undefined]];
    - the other methods first turn [this] into an object and raise a
      [TypeError] on [undefined];
    - [__proto__] is [Object.prototype] itself, not a function: the call
      raises a [TypeError]. *)
Inductive Inherited :=
| ObjectConstructor
| ObjectToString
| ObjectMethodOfThis
| ObjectPrototype.

Definition objectPrototype : list (string * Inherited) :=
  [ ("constructor", ObjectConstructor);
    ("__defineGetter__", ObjectMethodOfThis);
    ("__defineSetter__", ObjectMethodOfThis);
    ("hasOwnProperty", ObjectMethodOfThis);
    ("__lookupGetter__", ObjectMethodOfThis);
    ("__lookupSetter__", ObjectMethodOfThis);
    ("isPrototypeOf", ObjectMethodOfThis);
    ("propertyIsEnumerable", ObjectMethodOfThis);
    ("toString", ObjectToString);
    ("valueOf", ObjectMethodOfThis);
    ("__proto__", ObjectPrototype);
    ("toLocaleString", ObjectMethodOfThis) ].

(** What [filterMap[f]] evaluates to. *)
Inductive Member :=
| OwnFilter (m : Host -> Tab -> bool)
| InheritedMember (i : Inherited).

(** Lookup of a key in a list of properties. *)
Fixpoint property {A : Type} (props : list (string * A)) (key : string)
  : option A :=
  match props with
  | [] => None
  | (k, v) :: rest => if String.eqb k key then Some v else property rest key
  end.

(** [this.filterMap[f]]: own properties first, then the prototype. *)
Definition filterMap (f : string) : option Member :=
  match property filterMapOwn f with
  | Some m => Some (OwnFilter m)
  | None => InheritedMember <$> property objectPrototype f
  end.

(** The truthiness of [m(tab)]. *)
Definition callMember (m : Member) (h : Host) (tab : Tab) : Outcome bool :=
  match m with
  | OwnFilter m => Returns (m h tab)
  | InheritedMember ObjectConstructor => Returns true
  | InheritedMember ObjectToString => Returns true
  | InheritedMember ObjectMethodOfThis => Throws TypeError
  | InheritedMember ObjectPrototype => Throws TypeError
  end.

(** An entry of [filterMapCustom]. *)
Record CustomFilter := {
  prefix : string;
  matchTab : Host -> Tab -> string -> Outcome bool
}.

(** [a && b] where [b] may raise: [b] is not evaluated when [a] is
    false. *)
Definition andThen (a : bool) (b : Outcome bool) : Outcome bool :=
  if a then b else Returns false.

Definition matchTitle (h : Host) (t : Tab) (filter : string) : Outcome bool :=
  andThen (startsWith filter "title:")
          (isMatch h (label t) (trim (removeFirst "title:" filter))).

Definition matchPath (h : Host) (t : Tab) (filter : string) : Outcome bool :=
  andThen (startsWith filter "path:")
          (isMatch h (default "" (fsPath <$> getTabUri t))
                     (trim (removeFirst "path:" filter))).

Definition matchLang (h : Host) (t : Tab) (filter : string) : Outcome bool :=
  match input t with
  | TabInputText uri =>
      andThen (startsWith filter "lang:")
              (isMatch h (default "" (getDocument h uri ≫= doc_languageId))
                         (trim (removeFirst "lang:" filter)))
  | _ => Returns false
  end.

Definition filterMapCustom : list CustomFilter :=
  [ {| prefix := "title:"; matchTab := matchTitle |};
    {| prefix := "path:"; matchTab := matchPath |};
    {| prefix := "lang:"; matchTab := matchLang |} ].

(** [findCustomMap]. *)
Definition findCustomMap (filter : string) : option CustomFilter :=
  List.find (fun f => startsWith filter (prefix f)) filterMapCustom.

(** [hasPrefix]. *)
Definition hasPrefix (f : string) : bool :=
  existsb (fun p => startsWith f p) (List.map prefix filterMapCustom).

(** ** The blocking predicate *)

(** The pattern a [path:] token stands for: [resolvedFilters[f]], filled
    with [resolveVariables(f)] on first use.  The keys start with [path:],
    so none is a name of [Object.prototype].  Returns the cache after the
    step and the pattern. *)
Definition resolvedFilter (h : Host) (resolvedFilters : gmap string string)
    (f : string) : gmap string string * string :=
  if existsb (fun p => startsWith f p) ["path:"] then
    match resolvedFilters !! f with
    | Some r => (resolvedFilters, r)
    | None =>
        let r := resolveVariables h f noArgs in
        (<[f := r]> resolvedFilters, r)
    end
  else (resolvedFilters, f).

(** The [if (hasPrefix(f))] block of the loop body: [Returns true] when
    it executes [return true]. *)
Definition customStep (h : Host) (resolvedFilters : gmap string string)
    (tab : Tab) (f : string) : gmap string string * Outcome bool :=
  if hasPrefix f then
    let '(cache, rFilter) := resolvedFilter h resolvedFilters f in
    match findCustomMap rFilter with
    | Some customFilter => (cache, matchTab customFilter h tab rFilter)
    | None => (cache, Returns false)
    end
  else (resolvedFilters, Returns false).

(** The rest of the loop body: [const m = this.filterMap[f]] and the
    test [m && m(tab)]. *)
Definition registryStep (h : Host) (tab : Tab) (f : string) : Outcome bool :=
  match filterMap f with
  | Some m => callMember m h tab
  | None => Returns false
  end.

(** The body of the loop for the token [f]: [Returns true] when it
    executes [return true], [Returns false] when the loop goes on. *)
Definition filterStep (h : Host) (resolvedFilters : gmap string string)
    (tab : Tab) (f : string) : gmap string string * Outcome bool :=
  match customStep h resolvedFilters tab f with
  | (cache, Returns false) => (cache, registryStep h tab f)
  | result => result
  end.

(** The loop [for (const f of filters)] and the final [return false]. *)
Fixpoint blockingLoop (h : Host) (resolvedFilters : gmap string string)
    (tab : Tab) (filters : list string) : gmap string string * Outcome bool :=
  match filters with
  | [] => (resolvedFilters, Returns false)
  | f :: rest =>
      match filterStep h resolvedFilters tab f with
      | (cache, Returns false) => blockingLoop h cache tab rest
      | result => result
      end
  end.

(** [this.isBlockingPredicate]: the closure built in the constructor.
    It owns the cache [resolvedFilters]; the cache is passed in and out. *)
Definition isBlockingPredicate (h : Host)
    (resolvedFilters : gmap string string) (tab : Tab) (options : Options)
  : gmap string string * Outcome bool :=
  blockingLoop h resolvedFilters tab (blockMoveFilters options).

(** ** The options resolver *)

(** [defaultBlockMoveFilters]. *)
Definition defaultBlockMoveFilters : list string := ["pinned"].

(** The settings of the extension as [vscode.workspace.getConfiguration]
    gives them for a scope; [None] is a setting [get] answers with
    [undefined].  The values are of the declared types, so the
    conversions of [getCfgValue] leave them as they are. *)
Record Configuration := {
  cfg_blockMoveFilters : option (list string);
  cfg_direction : option string;
  cfg_padding : option Z;
  cfg_enabled : option bool
}.

(** The [scope] argument: [undefined], [null] or a scope. *)
Inductive Scope :=
| ScopeUndefined
| ScopeNull
| ScopeOf (uri : Uri).

(** The fields of a [TabStacker] the resolver reads. *)
Record TabStacker := {
  defaultOptions : Options;
  getConfiguration : option Uri -> Configuration
}.

(** The constructor's default for [defaultOptions]. *)
Definition initialOptions : Options :=
  {| blockMoveFilters := defaultBlockMoveFilters;
     direction := None;
     padding := None;
     enabled := Some true |}.

(** [getOptions]. *)
Definition getOptions (this : TabStacker) (scope : Scope) : Options :=
  let ofConfiguration cfg :=
    {| blockMoveFilters := default [] (cfg_blockMoveFilters cfg);
       direction := cfg_direction cfg;
       padding := cfg_padding cfg;
       enabled := cfg_enabled cfg |} in
  match scope with
  | ScopeUndefined => defaultOptions this
  | ScopeNull => ofConfiguration (getConfiguration this None)
  | ScopeOf uri => ofConfiguration (getConfiguration this (Some uri))
  end.

(** [loadOptions(scope)]: [getOptions(scope ?? null)]. *)
Definition loadOptions (this : TabStacker) (scope : option Uri) : TabStacker :=
  {| defaultOptions :=
       getOptions this (from_option ScopeOf ScopeNull scope);
     getConfiguration := getConfiguration this |}.

(** [getMoveDirectionOption]. *)
Definition getMoveDirectionOption (this : TabStacker) (scope : Scope)
  : string :=
  match direction (getOptions this scope) with
  | None => "left"
  | Some d =>
      if String.eqb d "" || String.eqb d "auto" then "left"
      else if existsb (String.eqb d) ["left"; "right"] then d
      else "left"
  end.

(** [getEnabledOption]. *)
Definition getEnabledOption (this : TabStacker) (scope : Scope) : bool :=
  default true (enabled (getOptions this scope)).

(** [getPaddingOption]. *)
Definition getPaddingOption (this : TabStacker) (scope : Scope) : Z :=
  default 0%Z (padding (getOptions this scope)).

(** [getBlockMoveFiltersOption]. *)
Definition getBlockMoveFiltersOption (this : TabStacker) (scope : Scope)
  : list string :=
  let options := getOptions this scope in
  if existsb (fun filter => existsb (String.eqb filter) defaultBlockMoveFilters)
             (blockMoveFilters options)
  then blockMoveFilters options
  else defaultBlockMoveFilters.

(** ** Inputs used in the examples *)

Definition noUri : Uri := {| uri_path := ""; fsPath := "" |}.

(** A tab with the given identity and pinned state. *)
Definition mkTab (ref : nat) (name : string) (pinned : bool) : Tab :=
  {| tabRef := ref; label := name; isActive := false; isDirty := false;
     isPinned := pinned; isPreview := false; input := TabInputUnknown |}.

(** The predicate that blocks on pinned tabs only. *)
Definition pinnedOnly : Predicate := fun t _ => isPinned t.

Definition optionsTowards (d : option string) (p : option Z) : Options :=
  {| blockMoveFilters := ["pinned"]; direction := d; padding := p;
     enabled := Some true |}.

(** The options with the padding set to [0]. *)
Definition withoutPadding (o : Options) : Options :=
  {| blockMoveFilters := blockMoveFilters o; direction := direction o;
     padding := Some 0%Z; enabled := enabled o |}.

(** Four slots that hold three objects: the pinned tab [P] sits in
    slots 0 and 2. *)
Definition repeatedLeft : list Tab :=
  [ mkTab 1 "P" true; mkTab 2 "X" false; mkTab 1 "P" true;
    mkTab 3 "D" false ].

(** Three slots that hold two objects: [P] sits in slots 0 and 2. *)
Definition repeatedRight : list Tab :=
  [ mkTab 1 "P" true; mkTab 3 "D" false; mkTab 1 "P" true ].

(** The sequence [A, B(pinned), C, D, E] of the specification. *)
Definition scenarioTabs : list Tab :=
  [ mkTab 1 "A" false; mkTab 2 "B" true; mkTab 3 "C" false;
    mkTab 4 "D" false; mkTab 5 "E" false ].

(** The blocking test of slot [n] of [tabs]. *)
Definition blockedSlot (isBlockingPredicate : Predicate) (options : Options)
    (tabs : list Tab) (n : nat) : bool :=
  match tabs !! n with
  | Some t => isBlockingPredicate t options
  | None => false
  end.

(** ** Notions used in the statements *)

(** The strings in which the character [c] does not occur. *)
Fixpoint freeOf (c : ascii) (s : string) : bool :=
  match s with
  | EmptyString => true
  | String d rest => negb (Ascii.eqb d c) && freeOf c rest
  end.

(** What the loop body decides for the token [f]. *)
Definition tokenOutcome (h : Host) (resolvedFilters : gmap string string)
    (tab : Tab) (f : string) : Outcome bool :=
  snd (filterStep h resolvedFilters tab f).

(** The first outcome of the list that is not [Returns false]. *)
Fixpoint firstDecisive (outcomes : list (Outcome bool)) : Outcome bool :=
  match outcomes with
  | [] => Returns false
  | Returns false :: rest => firstDecisive rest
  | decisive :: _ => decisive
  end.

Definition raises (o : Outcome bool) : bool :=
  match o with Throws _ => true | Returns _ => false end.

Definition blocks (o : Outcome bool) : bool :=
  match o with Returns b => b | Throws _ => false end.

(** Two caches that give every token the same pattern. *)
Definition samePatterns (h : Host) (c c' : gmap string string) : Prop :=
  forall f, snd (resolvedFilter h c f) = snd (resolvedFilter h c' f).

(** Options that hold the given filter tokens. *)
Definition optionsWithFilters (filters : list string) : Options :=
  {| blockMoveFilters := filters; direction := None; padding := None;
     enabled := None |}.

(** A tab stacker whose configuration holds the given filter tokens. *)
Definition stackerConfigured (filters : option (list string)) : TabStacker :=
  {| defaultOptions := initialOptions;
     getConfiguration := fun _ =>
       {| cfg_blockMoveFilters := filters; cfg_direction := None;
          cfg_padding := None; cfg_enabled := None |} |}.

(** The names a variable of the table can have: no [$] and no [}]. *)
Definition validKey (k : string) : bool :=
  freeOf "$" k && freeOf "}" k.

(** The names of the table. *)
Definition variableNames : list string := List.map fst variables.entries.

(** The token [${key}] between two texts. *)
Definition tokenIn (pre key post : string) : string :=
  pre +:+ (variablePattern key +:+ post).

(** A host with nothing open, whose pattern matcher matches nothing. *)
Definition quietHost : Host :=
  {| env_HOME := None; env_USERPROFILE := None; process_cwd := "/work";
     activeTextEditor := None; activeNotebookEditor := None;
     visibleTextEditors := []; textDocuments := []; documentCache := ∅;
     getWorkspaceFolder := fun _ => None; path_sep := "/"%char;
     path_relative := fun a _ => a; path_dirname := fun a => a;
     path_basename := fun a => a; path_extname := fun _ => "";
     path_parse_name := fun a => a;
     isMatch := fun _ _ => Returns false |}.

(** The same host with the given home and working directories. *)
Definition hostNamed (home workingDirectory : string) : Host :=
  {| env_HOME := Some home; env_USERPROFILE := None;
     process_cwd := workingDirectory;
     activeTextEditor := None; activeNotebookEditor := None;
     visibleTextEditors := []; textDocuments := []; documentCache := ∅;
     getWorkspaceFolder := fun _ => None; path_sep := "/"%char;
     path_relative := fun a _ => a; path_dirname := fun a => a;
     path_basename := fun a => a; path_extname := fun _ => "";
     path_parse_name := fun a => a;
     isMatch := fun _ _ => Returns false |}.

(** C7 as the specification states it: a token of a recognized name in
    the value put in for a token of the template is still in the
    result. *)
Definition noReexpansion : Prop :=
  forall (h : Host) (args : Args) (template key name : string)
         (fn : Host -> Args -> string),
    In (key, fn) variables.entries ->
    In name variableNames ->
    includes template (variablePattern key) = true ->
    includes (fn h args) (variablePattern name) = true ->
    includes (resolveVariables h template args) (variablePattern name) = true.

(** ** The position calculator run with the closure of the class *)

(** The [switch] of [getStackPosition] and the test [moveDelta < 0]
    behind it, for given [filteredIndexes]. *)
Definition moveDistance (currentTabIndex : Z) (tabs : list Tab)
    (filteredIndexes : list Z) (options : Options) : option Z :=
  let moveDelta :=
    match direction options with
    | Some d =>
        if String.eqb d "left" then
          let moveDelta :=
            match findLast (fun index => index <? currentTabIndex)%Z
                           filteredIndexes with
            | None => Z.abs (0 - currentTabIndex)
            | Some blockingIndex => (currentTabIndex - blockingIndex - 1)%Z
            end in
          match truthyNumber (padding options) with
          | Some p => Z.max 0 (moveDelta - p)
          | None => moveDelta
          end
        else if String.eqb d "right" then
          let moveDelta :=
            match List.find (fun index => currentTabIndex <? index)%Z
                            filteredIndexes with
            | None => (Z.of_nat (length tabs) - currentTabIndex - 1)%Z
            | Some blockingIndex => (blockingIndex - currentTabIndex - 1)%Z
            end in
          match truthyNumber (padding options) with
          | Some p => Z.max 0 (moveDelta - p)
          | None => moveDelta
          end
        else (-1)%Z
    | None => (-1)%Z
    end in
  if (moveDelta <? 0)%Z then None else Some moveDelta.

(** [tabs.filter((tab) => isBlockingPredicate(tab, options))] with
    [this.isBlockingPredicate]: the calls run in the order of the tabs,
    each on the cache the one before left, and the first that raises ends
    the filter. *)
Fixpoint filterBlocking (h : Host) (resolvedFilters : gmap string string)
    (options : Options) (tabs : list Tab)
  : gmap string string * Outcome (list Tab) :=
  match tabs with
  | [] => (resolvedFilters, Returns [])
  | tab :: rest =>
      match isBlockingPredicate h resolvedFilters tab options with
      | (cache, Throws e) => (cache, Throws e)
      | (cache, Returns keep) =>
          match filterBlocking h cache options rest with
          | (cache', Returns kept) =>
              (cache', Returns (if keep then tab :: kept else kept))
          | (cache', Throws e) => (cache', Throws e)
          end
      end
  end.

(** [blockingTabIndexes] called with [this.isBlockingPredicate]. *)
Definition blockingTabIndexesM (h : Host)
    (resolvedFilters : gmap string string) (tabs : list Tab)
    (options : Options) : gmap string string * Outcome (list Z) :=
  match filterBlocking h resolvedFilters options tabs with
  | (cache, Returns kept) =>
      (cache, Returns (List.map (fun tab => indexOf tabs tab) kept))
  | (cache, Throws e) => (cache, Throws e)
  end.

(** [getStackPosition] called with [this.isBlockingPredicate], as
    [stackTab] does. *)
Definition getStackPositionM (h : Host)
    (resolvedFilters : gmap string string) (currentTabIndex : Z)
    (tabs : list Tab) (options : Options)
  : gmap string string * Outcome (option Z) :=
  match tabAt tabs currentTabIndex with
  | None => (resolvedFilters, Returns None)
  | Some current =>
      match isBlockingPredicate h resolvedFilters current options with
      | (cache, Throws e) => (cache, Throws e)
      | (cache, Returns true) => (cache, Returns None)
      | (cache, Returns false) =>
          match blockingTabIndexesM h cache tabs options with
          | (cache', Throws e) => (cache', Throws e)
          | (cache', Returns filteredIndexes) =>
              (cache', Returns (moveDistance currentTabIndex tabs
                                             filteredIndexes options))
          end
      end
  end.

(** What [this.isBlockingPredicate] answers on the cache
    [resolvedFilters], read as a predicate: a call that raises counts as
    "not blocking". *)
Definition answerOf (h : Host) (resolvedFilters : gmap string string)
  : Predicate :=
  fun tab options =>
    blocks (snd (isBlockingPredicate h resolvedFilters tab options)).

(** The distance of [getStackPosition] towards the left before the
    padding is taken off. *)
Definition rawLeft (currentTabIndex : Z) (filteredIndexes : list Z) : Z :=
  match findLast (fun index => index <? currentTabIndex)%Z
                 filteredIndexes with
  | None => Z.abs (0 - currentTabIndex)
  | Some blockingIndex => (currentTabIndex - blockingIndex - 1)%Z
  end.

(** The same towards the right. *)
Definition rawRight (currentTabIndex : Z) (tabs : list Tab)
    (filteredIndexes : list Z) : Z :=
  match List.find (fun index => currentTabIndex <? index)%Z
                  filteredIndexes with
  | None => (Z.of_nat (length tabs) - currentTabIndex - 1)%Z
  | Some blockingIndex => (blockingIndex - currentTabIndex - 1)%Z
  end.

(** ** The command *)

(** The argument of [vscode.commands.executeCommand("moveActiveEditor",
    args)]. *)
Record MoveArgs := { move_to : string; move_by : string; move_value : Z }.

(** [tabs.findIndex((t) => t.isActive)], counting from [k]. *)
Fixpoint findIndexFrom (k : Z) (tabs : list Tab) : Z :=
  match tabs with
  | [] => (-1)%Z
  | t :: rest => if isActive t then k else findIndexFrom (k + 1)%Z rest
  end.

(** A [Uri | undefined] passed as [scope]. *)
Definition scopeOfUri (uri : option Uri) : Scope :=
  match uri with
  | Some u => ScopeOf u
  | None => ScopeUndefined
  end.

(** The [options] that [stackTab] builds; it has no [enabled] field. *)
Definition stackOptions (this : TabStacker) (uri : option Uri) : Options :=
  {| blockMoveFilters := getBlockMoveFiltersOption this (scopeOfUri uri);
     direction := Some (getMoveDirectionOption this (scopeOfUri uri));
     padding := Some (getPaddingOption this (scopeOfUri uri));
     enabled := None |}.

(** [stackTab].  [activeGroupTabs] is what [getTabs()] returns.  The
    result is the command sent to the editor, if one is sent.  Reading
    [tabs[currentTabIndex]] cannot miss, since [findIndex] found the
    index; were it to, [getTabUri] would raise on [undefined]. *)
Definition stackTab (this : TabStacker) (h : Host)
    (resolvedFilters : gmap string string)
    (activeGroupTabs : option (list Tab))
  : gmap string string * Outcome (option MoveArgs) :=
  match activeGroupTabs with
  | None => (resolvedFilters, Returns None)
  | Some tabs =>
      let currentTabIndex := findIndexFrom 0 tabs in
      if (currentTabIndex =? -1)%Z then (resolvedFilters, Returns None)
      else
        match tabAt tabs currentTabIndex with
        | None => (resolvedFilters, Throws TypeError)
        | Some tab =>
            let uri := getTabUri tab in
            let options := stackOptions this uri in
            match getStackPositionM h resolvedFilters currentTabIndex tabs
                                    options with
            | (cache, Throws e) => (cache, Throws e)
            | (cache, Returns None) => (cache, Returns None)
            | (cache, Returns (Some value)) =>
                if (value <=? 0)%Z then (cache, Returns None)
                else (cache,
                      Returns (Some {| move_to := "position";
                                       move_by := "tab";
                                       move_value := value |}))
            end
        end
  end.

(** The stacker in which every [enabled] setting is [b]. *)
Definition withEnabled (b : bool) (this : TabStacker) : TabStacker :=
  {| defaultOptions :=
       {| blockMoveFilters := blockMoveFilters (defaultOptions this);
          direction := direction (defaultOptions this);
          padding := padding (defaultOptions this);
          enabled := Some b |};
     getConfiguration := fun scope =>
       {| cfg_blockMoveFilters :=
            cfg_blockMoveFilters (getConfiguration this scope);
          cfg_direction := cfg_direction (getConfiguration this scope);
          cfg_padding := cfg_padding (getConfiguration this scope);
          cfg_enabled := Some b |} |}.

(** No call of the predicate on a tab of the list raises. *)
Definition quietOn (h : Host) (resolvedFilters : gmap string string)
    (options : Options) (tabs : list Tab) : bool :=
  forallb (fun t => negb (raises (snd (isBlockingPredicate
                                         h resolvedFilters t options))))
          tabs.

(** ** Activation *)

(** [configId = extensionId.split(".").pop() || "stack-tabs"]. *)
Definition configIdOf (extensionId : string) : string :=
  orString (Some (lastSegment "."%char extensionId)) "stack-tabs".

(** ** The throttle *)

(** The state of a function made by [throttle(func, ms)]: the flag
    [inThrottle] ([undefined], so falsy, at first) and the timers set and
    not yet fired. *)
Record Throttle := { inThrottle : bool; timers : nat }.

Definition newThrottle : Throttle := {| inThrottle := false; timers := 0 |}.

(** What happens to a throttled function: it is called, [func]
    raising or not should it be applied, or one of its timers fires. *)
Inductive ThrottleEvent := Called (funcRaises : bool) | TimerFired.

(** One event.  The result tells whether [func] was applied and
    returned.  When [func] raises, the lines behind [func.apply] do not
    run: the flag stays and no timer is set.  A timer that was never set
    cannot fire. *)
Definition throttleStep (s : Throttle) (e : ThrottleEvent)
  : option (Throttle * bool) :=
  match e with
  | Called funcRaises =>
      if inThrottle s then Some (s, false)
      else if funcRaises then Some (s, false)
      else Some ({| inThrottle := true; timers := S (timers s) |}, true)
  | TimerFired =>
      match timers s with
      | O => None
      | S n => Some ({| inThrottle := false; timers := n |}, false)
      end
  end.

(** A run of events: the final state and the number of times [func]
    was applied and returned. *)
Fixpoint throttleRun (s : Throttle) (events : list ThrottleEvent)
  : option (Throttle * nat) :=
  match events with
  | [] => Some (s, O)
  | e :: rest =>
      match throttleStep s e with
      | None => None
      | Some (s', applied) =>
          match throttleRun s' rest with
          | None => None
          | Some (final, n) => Some (final, if applied then S n else n)
          end
      end
  end.

(** The number of [TimerFired] events of a run. *)
Definition firings (events : list ThrottleEvent) : nat :=
  length (List.filter (fun e => match e with TimerFired => true
                                        | Called _ => false end) events).

(** ** Inputs used in the further examples *)

(** The documents among which [getDocument] searches when the cache
    has no entry. *)
Definition knownDocuments (h : Host) : list Document :=
  (option_list (activeTextEditor h) ++ option_list (activeNotebookEditor h)
   ++ visibleTextEditors h ++ textDocuments h)%list.

(** The padding is absent or not negative. *)
Definition paddingNotNegative (options : Options) : Prop :=
  match padding options with
  | Some p => (0 <= p)%Z
  | None => True
  end.

(** The options with the padding [p]. *)
Definition withPadding (o : Options) (p : Z) : Options :=
  {| blockMoveFilters := blockMoveFilters o; direction := direction o;
     padding := Some p; enabled := enabled o |}.

(** A stacker whose configuration is [cfg] for every scope. *)
Definition stackerOf (cfg : Configuration) : TabStacker :=
  {| defaultOptions := initialOptions; getConfiguration := fun _ => cfg |}.

(** A text tab with the given identity, file, pinned and active state. *)
Definition textTab (ref : nat) (file : string) (pinned active : bool) : Tab :=
  {| tabRef := ref; label := file; isActive := active; isDirty := false;
     isPinned := pinned; isPreview := false;
     input := TabInputText {| uri_path := file; fsPath := file |} |}.

(** A group of five text tabs: [/b] pinned, [/d] active. *)
Definition activeGroup : list Tab :=
  [ textTab 1 "/a" false false; textTab 2 "/b" true false;
    textTab 3 "/c" false false; textTab 4 "/d" false true;
    textTab 5 "/e" false false ].

(** A stacker configured with the filters [["pinned"]] and the
    direction ["left"]. *)
Definition leftStacker : TabStacker :=
  stackerOf {| cfg_blockMoveFilters := Some ["pinned"];
               cfg_direction := Some "left";
               cfg_padding := None; cfg_enabled := None |}.

(** A token that no prefix starts and that neither the registry nor
    [Object.prototype] knows. *)
Definition unknownToken (f : string) : bool :=
  negb (hasPrefix f)
  && negb (bool_decide (is_Some (property filterMapOwn f)))
  && negb (bool_decide (is_Some (property objectPrototype f))).

(** * Properties *)

(** ** The position calculator *)

Section PositionCalculator.

Local Open Scope list_scope.
Local Open Scope Z_scope.

Variable isBlocking : Predicate.
Variable options : Options.

Lemma tabAt_Some tabs i t :
  tabAt tabs i = Some t ->
  0 <= i < Z.of_nat (length tabs) /\ tabs !! Z.to_nat i = Some t.
Proof.
  unfold tabAt. destruct (Z.ltb_spec i 0) as [|Hi]; [discriminate|].
  intros H. split; [|exact H].
  apply lookup_lt_Some in H. lia.
Qed.

Lemma tabAt_of_nat tabs (n : nat) : tabAt tabs (Z.of_nat n) = tabs !! n.
Proof.
  unfold tabAt. destruct (Z.ltb_spec (Z.of_nat n) 0); [lia|].
  now rewrite Nat2Z.id.
Qed.

Lemma tabAt_outside tabs i :
  i < 0 \/ Z.of_nat (length tabs) <= i -> tabAt tabs i = None.
Proof.
  unfold tabAt. destruct (Z.ltb_spec i 0); [reflexivity|].
  intros [?|?]; [lia|]. apply lookup_ge_None. lia.
Qed.

(** In a sequence of distinct objects [indexOf] finds each tab in its
    own slot. *)
Lemma indexOfFrom_distinct k pre t suf :
  NoDup (List.map tabRef (pre ++ t :: suf)) ->
  indexOfFrom k (pre ++ t :: suf) t = k + Z.of_nat (length pre).
Proof.
  revert k. induction pre as [|x pre IH]; intros k Hnd; simpl.
  - unfold sameObject. rewrite Nat.eqb_refl. lia.
  - simpl in Hnd. apply NoDup_cons in Hnd as [Hx Hnd].
    unfold sameObject.
    destruct (Nat.eqb_spec (tabRef x) (tabRef t)) as [E|_].
    + exfalso. apply Hx. rewrite E, map_app. simpl.
      apply elem_of_app. right. left.
    + rewrite IH by assumption. lia.
Qed.

Lemma blockingTabIndexes_suffix pre suf :
  NoDup (List.map tabRef (pre ++ suf)) ->
  List.map (indexOf (pre ++ suf))
           (List.filter (fun tab => isBlocking tab options) suf)
  = List.map Z.of_nat
      (List.filter (blockedSlot isBlocking options (pre ++ suf))
                   (seq (length pre) (length suf))).
Proof.
  revert pre. induction suf as [|t suf IH]; intros pre Hnd; [reflexivity|].
  assert (Hslot : blockedSlot isBlocking options (pre ++ t :: suf) (length pre)
                  = isBlocking t options).
  { unfold blockedSlot. now rewrite list_lookup_middle. }
  assert (Hrest :
    List.map (indexOf (pre ++ t :: suf))
             (List.filter (fun tab => isBlocking tab options) suf)
    = List.map Z.of_nat
        (List.filter (blockedSlot isBlocking options (pre ++ t :: suf))
                     (seq (S (length pre)) (length suf)))).
  { specialize (IH (pre ++ [t])).
    rewrite <- app_assoc in IH. simpl in IH.
    rewrite length_app in IH. simpl in IH.
    rewrite Nat.add_1_r in IH. now apply IH. }
  cbn [length seq List.filter]. rewrite Hslot.
  destruct (isBlocking t options); cbn [List.map]; rewrite Hrest;
    [|reflexivity].
  f_equal. unfold indexOf. rewrite indexOfFrom_distinct by assumption. lia.
Qed.

(** On distinct tabs [blockingTabIndexes] is the list of the blocked
    slots in increasing order. *)
Lemma blockingTabIndexes_distinct tabs :
  distinctTabs tabs ->
  blockingTabIndexes tabs isBlocking options
  = List.map Z.of_nat
      (List.filter (blockedSlot isBlocking options tabs) (seq 0 (length tabs))).
Proof.
  intros Hnd. exact (blockingTabIndexes_suffix [] tabs Hnd).
Qed.

Lemma blockedSlot_blockingAt tabs (n : nat) :
  blockedSlot isBlocking options tabs n = true
  <-> blockingAt tabs isBlocking options (Z.of_nat n).
Proof.
  unfold blockedSlot, blockingAt. rewrite tabAt_of_nat.
  destruct (tabs !! n) as [t|]; split.
  - intros H. now exists t.
  - intros (t' & [= <-] & H). exact H.
  - discriminate.
  - intros (t' & [=] & _).
Qed.

Lemma blockingTabIndexes_In tabs i :
  distinctTabs tabs ->
  In i (blockingTabIndexes tabs isBlocking options)
  <-> blockingAt tabs isBlocking options i.
Proof.
  intros Hnd. rewrite blockingTabIndexes_distinct by assumption.
  rewrite in_map_iff. split.
  - intros (n & <- & Hn). apply filter_In in Hn as [_ Hn].
    now apply blockedSlot_blockingAt.
  - intros Hb. assert (Hb' := Hb). destruct Hb' as (t & Ht & _).
    apply tabAt_Some in Ht as [Hi Ht].
    exists (Z.to_nat i). split; [lia|].
    apply filter_In. split.
    + apply in_seq. lia.
    + apply blockedSlot_blockingAt. now rewrite Z2Nat.id by lia.
Qed.

Lemma increasing_filter_seq (q : nat -> bool) a n :
  StronglySorted Z.lt (List.map Z.of_nat (List.filter q (seq a n))).
Proof.
  revert a. induction n as [|n IH]; intros a; simpl; [constructor|].
  destruct (q a); [|apply IH].
  simpl. constructor; [apply IH|].
  apply Forall_forall. intros x Hx.
  apply list_elem_of_In, in_map_iff in Hx as (m & <- & Hm).
  apply filter_In in Hm as [Hm _]. apply in_seq in Hm. lia.
Qed.

Lemma blockingTabIndexes_increasing tabs :
  distinctTabs tabs ->
  StronglySorted Z.lt (blockingTabIndexes tabs isBlocking options).
Proof.
  intros Hnd. rewrite blockingTabIndexes_distinct by assumption.
  apply increasing_filter_seq.
Qed.

(** [findLast] and [find] on an increasing list. *)
Lemma findLast_none p l :
  (forall j, In j l -> p j = false) -> findLast p l = None.
Proof.
  induction l as [|x l IH]; intros H; simpl; [reflexivity|].
  rewrite IH by (intros; apply H; now right).
  now rewrite (H x) by now left.
Qed.

Lemma findLast_some p l x : findLast p l = Some x -> In x l /\ p x = true.
Proof.
  induction l as [|y l IH]; simpl; [discriminate|].
  destruct (findLast p l) as [z|].
  - intros [= <-]. destruct IH as [? ?]; auto.
  - destruct (p y) eqn:E; [|discriminate]. intros [= <-]. auto.
Qed.

Lemma findLast_increasing p l i :
  StronglySorted Z.lt l -> In i l -> p i = true ->
  (forall j, In j l -> p j = true -> j <= i) ->
  findLast p l = Some i.
Proof.
  induction l as [|x l IH]; intros Hs Hin Hp Hmax; [destruct Hin|].
  apply StronglySorted_inv in Hs as [Hs Hx]. simpl.
  destruct Hin as [->|Hin].
  - rewrite findLast_none, Hp; [reflexivity|].
    intros j Hj. destruct (p j) eqn:E; [|reflexivity].
    rewrite Forall_forall in Hx.
    specialize (Hx j (proj2 (list_elem_of_In _ _) Hj)).
    specialize (Hmax j (or_intror Hj) E). lia.
  - rewrite IH; auto. intros j Hj. apply Hmax. now right.
Qed.

Lemma find_none_all (p : Z -> bool) l :
  (forall j, In j l -> p j = false) -> List.find p l = None.
Proof.
  induction l as [|x l IH]; intros H; simpl; [reflexivity|].
  rewrite (H x) by now left. apply IH. intros; apply H; now right.
Qed.

Lemma find_increasing (p : Z -> bool) l i :
  StronglySorted Z.lt l -> In i l -> p i = true ->
  (forall j, In j l -> p j = true -> i <= j) ->
  List.find p l = Some i.
Proof.
  induction l as [|x l IH]; intros Hs Hin Hp Hmin; [destruct Hin|].
  apply StronglySorted_inv in Hs as [Hs Hx]. simpl.
  destruct (p x) eqn:E.
  - destruct Hin as [->|Hin]; [reflexivity|].
    rewrite Forall_forall in Hx.
    specialize (Hx i (proj2 (list_elem_of_In _ _) Hin)).
    specialize (Hmin x (or_introl eq_refl) E). lia.
  - destruct Hin as [->|Hin]; [congruence|].
    apply IH; auto. intros j Hj. apply Hmin. now right.
Qed.

Lemma zero_padding_falsy :
  default 0 (padding options) = 0 -> truthyNumber (padding options) = None.
Proof.
  unfold truthyNumber. destruct (padding options) as [p|]; simpl; [|easy].
  intros ->. reflexivity.
Qed.

End PositionCalculator.

(** C9.  On a sequence of pairwise distinct tabs, [blockingTabIndexes]
    returns exactly the indexes at which the predicate holds, in strictly
    increasing order. *)
Theorem blockingTabIndexes_exact_increasing
    (tabs : list Tab) (isBlocking : Predicate) (options : Options) :
  distinctTabs tabs ->
  (forall i : Z, In i (blockingTabIndexes tabs isBlocking options)
                 <-> blockingAt tabs isBlocking options i)
  /\ StronglySorted Z.lt (blockingTabIndexes tabs isBlocking options).
Proof.
  intros Hnd. split.
  - intros i. now apply blockingTabIndexes_In.
  - now apply blockingTabIndexes_increasing.
Qed.

Lemma scenarioTabs_distinct : distinctTabs scenarioTabs.
Proof.
  unfold distinctTabs. apply (bool_decide_unpack _). reflexivity.
Qed.

Lemma blockingTabIndexes_exact_increasing_witness :
  distinctTabs scenarioTabs
  /\ (forall i : Z,
        In i (blockingTabIndexes scenarioTabs pinnedOnly
                                 (optionsTowards (Some "left") None))
        <-> blockingAt scenarioTabs pinnedOnly
                       (optionsTowards (Some "left") None) i)
  /\ StronglySorted Z.lt
       (blockingTabIndexes scenarioTabs pinnedOnly
                           (optionsTowards (Some "left") None)).
Proof.
  split; [exact scenarioTabs_distinct|].
  exact (blockingTabIndexes_exact_increasing scenarioTabs pinnedOnly
           (optionsTowards (Some "left") None) scenarioTabs_distinct).
Defined.

(** C1.  On the tabs of a group, which are pairwise distinct objects,
    with the active index in range and not blocking, direction [left],
    padding 0: with [i] the greatest
    blocking index below the active index the result is
    [activeIndex - i - 1]; with no blocking index below it, the result is
    [activeIndex]. *)
Theorem getStackPosition_left
    (tabs : list Tab) (activeIndex : Z) (isBlocking : Predicate)
    (options : Options) (active : Tab) :
  distinctTabs tabs ->
  tabAt tabs activeIndex = Some active ->
  isBlocking active options = false ->
  direction options = Some "left" ->
  default 0%Z (padding options) = 0%Z ->
  (forall i : Z,
      (i < activeIndex)%Z ->
      blockingAt tabs isBlocking options i ->
      (forall j : Z, (i < j < activeIndex)%Z ->
                     ~ blockingAt tabs isBlocking options j) ->
      getStackPosition activeIndex tabs isBlocking options
      = Some (activeIndex - i - 1)%Z)
  /\ ((forall i : Z, (i < activeIndex)%Z ->
                     ~ blockingAt tabs isBlocking options i) ->
      getStackPosition activeIndex tabs isBlocking options
      = Some activeIndex).
Proof.
  intros Hnd Hat Hfree Hdir Hpad.
  assert (Hrange := tabAt_Some _ _ _ Hat).
  unfold getStackPosition. rewrite Hat, Hfree, Hdir.
  rewrite (zero_padding_falsy _ Hpad). cbn [String.eqb Ascii.eqb Bool.eqb].
  split.
  - intros i Hi Hb Hgreatest.
    rewrite (findLast_increasing _ _ i).
    + destruct (Z.ltb_spec (activeIndex - i - 1) 0); [lia|reflexivity].
    + now apply blockingTabIndexes_increasing.
    + now apply blockingTabIndexes_In.
    + now apply Z.ltb_lt.
    + intros j Hj Hlt. apply Z.ltb_lt in Hlt.
      apply blockingTabIndexes_In in Hj; [|assumption].
      destruct (Z_le_gt_dec j i); [assumption|].
      exfalso. apply (Hgreatest j); [lia|assumption].
  - intros Hnone. rewrite findLast_none.
    + destruct (Z.ltb_spec (Z.abs (0 - activeIndex)) 0); [lia|].
      f_equal. lia.
    + intros j Hj. apply blockingTabIndexes_In in Hj; [|assumption].
      destruct (Z.ltb_spec j activeIndex) as [Hlt|]; [|reflexivity].
      exfalso. now apply (Hnone j).
Qed.

(** C2.  On the tabs of a group, which are pairwise distinct objects,
    with the active index in range and not blocking, direction [right],
    padding 0: with [i] the smallest
    blocking index above the active index the result is
    [i - activeIndex - 1]; with no blocking index above it, the result is
    [tabs.length - activeIndex - 1]. *)
Theorem getStackPosition_right
    (tabs : list Tab) (activeIndex : Z) (isBlocking : Predicate)
    (options : Options) (active : Tab) :
  distinctTabs tabs ->
  tabAt tabs activeIndex = Some active ->
  isBlocking active options = false ->
  direction options = Some "right" ->
  default 0%Z (padding options) = 0%Z ->
  (forall i : Z,
      (activeIndex < i)%Z ->
      blockingAt tabs isBlocking options i ->
      (forall j : Z, (activeIndex < j < i)%Z ->
                     ~ blockingAt tabs isBlocking options j) ->
      getStackPosition activeIndex tabs isBlocking options
      = Some (i - activeIndex - 1)%Z)
  /\ ((forall i : Z, (activeIndex < i)%Z ->
                     ~ blockingAt tabs isBlocking options i) ->
      getStackPosition activeIndex tabs isBlocking options
      = Some (Z.of_nat (length tabs) - activeIndex - 1)%Z).
Proof.
  intros Hnd Hat Hfree Hdir Hpad.
  assert (Hrange := tabAt_Some _ _ _ Hat).
  unfold getStackPosition. rewrite Hat, Hfree, Hdir.
  rewrite (zero_padding_falsy _ Hpad). cbn [String.eqb Ascii.eqb Bool.eqb].
  split.
  - intros i Hi Hb Hsmallest.
    rewrite (find_increasing _ _ i).
    + destruct (Z.ltb_spec (i - activeIndex - 1) 0); [lia|reflexivity].
    + now apply blockingTabIndexes_increasing.
    + now apply blockingTabIndexes_In.
    + now apply Z.ltb_lt.
    + intros j Hj Hlt. apply Z.ltb_lt in Hlt.
      apply blockingTabIndexes_In in Hj; [|assumption].
      destruct (Z_le_gt_dec i j); [assumption|].
      exfalso. apply (Hsmallest j); [lia|assumption].
  - intros Hnone. rewrite find_none_all.
    + destruct (Z.ltb_spec (Z.of_nat (length tabs) - activeIndex - 1) 0);
        [lia|reflexivity].
    + intros j Hj. apply blockingTabIndexes_In in Hj; [|assumption].
      destruct (Z.ltb_spec activeIndex j) as [Hlt|]; [|reflexivity].
      exfalso. now apply (Hnone j).
Qed.

(** The scenario of the specification: [A, B(pinned), C, D, E], [D]
    active, direction [left], padding 0, gives the distance 1. *)
Lemma getStackPosition_left_witness :
  getStackPosition 3 scenarioTabs pinnedOnly
                   (optionsTowards (Some "left") (Some 0%Z))
  = Some 1%Z.
Proof.
  refine (proj1 (getStackPosition_left scenarioTabs 3 pinnedOnly
                   (optionsTowards (Some "left") (Some 0%Z))
                   (mkTab 4 "D" false) scenarioTabs_distinct
                   eq_refl eq_refl eq_refl eq_refl) 1%Z _ _ _).
  - lia.
  - exists (mkTab 2 "B" true). split; reflexivity.
  - intros j Hj (t & Ht & Hp).
    assert (j = 2%Z) as -> by lia. injection Ht as <-. discriminate Hp.
Defined.

(** Why the tabs are taken distinct: [indexOf] reports the first slot
    of an object.  In an array that held one object twice, [P, X, P, D]
    with [D] active, slot 0 would be reported for both copies of [P] and
    the result would be 2, not [3 - 2 - 1].  The editor gives one object
    per tab, so no such array reaches the calculator. *)
Lemma getStackPosition_left_repeated_tab :
  tabAt repeatedLeft 3 = Some (mkTab 3 "D" false)
  /\ pinnedOnly (mkTab 3 "D" false)
                (optionsTowards (Some "left") (Some 0%Z)) = false
  /\ blockingAt repeatedLeft pinnedOnly
                (optionsTowards (Some "left") (Some 0%Z)) 2
  /\ (forall j : Z, (2 < j < 3)%Z ->
        ~ blockingAt repeatedLeft pinnedOnly
                     (optionsTowards (Some "left") (Some 0%Z)) j)
  /\ getStackPosition 3 repeatedLeft pinnedOnly
                      (optionsTowards (Some "left") (Some 0%Z))
     = Some 2%Z
  /\ getStackPosition 3 repeatedLeft pinnedOnly
                      (optionsTowards (Some "left") (Some 0%Z))
     <> Some (3 - 2 - 1)%Z.
Proof.
  repeat split; try reflexivity.
  - exists (mkTab 1 "P" true). split; reflexivity.
  - intros j Hj. lia.
  - discriminate.
Qed.

(** The scenario of the specification towards the right: no blocking
    tab after [D], so the distance is [5 - 3 - 1 = 1]. *)
Lemma getStackPosition_right_witness :
  getStackPosition 3 scenarioTabs pinnedOnly
                   (optionsTowards (Some "right") (Some 0%Z))
  = Some (Z.of_nat (length scenarioTabs) - 3 - 1)%Z.
Proof.
  refine (proj2 (getStackPosition_right scenarioTabs 3 pinnedOnly
                   (optionsTowards (Some "right") (Some 0%Z))
                   (mkTab 4 "D" false) scenarioTabs_distinct
                   eq_refl eq_refl eq_refl eq_refl) _).
  intros i Hi (t & Ht & Hp).
  apply tabAt_Some in Ht as [Hr Ht]. simpl in Hr.
  assert (i = 4%Z) as -> by lia. injection Ht as <-. discriminate Hp.
Defined.

(** The same towards the right: in [P, D, P] with [D] active no index
    above 1 would be found and the result would be 1, not [2 - 1 - 1]. *)
Lemma getStackPosition_right_repeated_tab :
  tabAt repeatedRight 1 = Some (mkTab 3 "D" false)
  /\ pinnedOnly (mkTab 3 "D" false)
                (optionsTowards (Some "right") (Some 0%Z)) = false
  /\ blockingAt repeatedRight pinnedOnly
                (optionsTowards (Some "right") (Some 0%Z)) 2
  /\ (forall j : Z, (1 < j < 2)%Z ->
        ~ blockingAt repeatedRight pinnedOnly
                     (optionsTowards (Some "right") (Some 0%Z)) j)
  /\ getStackPosition 1 repeatedRight pinnedOnly
                      (optionsTowards (Some "right") (Some 0%Z))
     = Some 1%Z
  /\ getStackPosition 1 repeatedRight pinnedOnly
                      (optionsTowards (Some "right") (Some 0%Z))
     <> Some (2 - 1 - 1)%Z.
Proof.
  repeat split; try reflexivity.
  - exists (mkTab 1 "P" true). split; reflexivity.
  - intros j Hj. lia.
  - discriminate.
Qed.

(** C3.  With a padding [p > 0] the result is [max(0, raw - p)], where
    [raw] is the distance without padding: [activeIndex - i - 1] for the
    nearest blocker [i] on the left, [activeIndex] with none on the left,
    [i - activeIndex - 1] for the nearest blocker [i] on the right,
    [tabs.length - activeIndex - 1] with none on the right.  The same
    clamp serves the four cases, the result is the clamp of the result for
    padding 0, and it is never negative. *)
Theorem getStackPosition_padding_clamp
    (tabs : list Tab) (activeIndex : Z) (isBlocking : Predicate)
    (options : Options) (p : Z) :
  (0 < p)%Z ->
  padding options = Some p ->
  getStackPosition activeIndex tabs isBlocking options
  = (fun raw => Z.max 0 (raw - p)) <$>
      getStackPosition activeIndex tabs (fun t _ => isBlocking t options)
                       (withoutPadding options)
  /\ (forall d : Z,
        getStackPosition activeIndex tabs isBlocking options = Some d ->
        (0 <= d)%Z)
  /\ (forall active : Tab,
        distinctTabs tabs ->
        tabAt tabs activeIndex = Some active ->
        isBlocking active options = false ->
        (direction options = Some "left" ->
         (forall i : Z,
             (i < activeIndex)%Z ->
             blockingAt tabs isBlocking options i ->
             (forall j : Z, (i < j < activeIndex)%Z ->
                            ~ blockingAt tabs isBlocking options j) ->
             getStackPosition activeIndex tabs isBlocking options
             = Some (Z.max 0 (activeIndex - i - 1 - p)))
         /\ ((forall i : Z, (i < activeIndex)%Z ->
                            ~ blockingAt tabs isBlocking options i) ->
             getStackPosition activeIndex tabs isBlocking options
             = Some (Z.max 0 (activeIndex - p))))
        /\ (direction options = Some "right" ->
            (forall i : Z,
                (activeIndex < i)%Z ->
                blockingAt tabs isBlocking options i ->
                (forall j : Z, (activeIndex < j < i)%Z ->
                               ~ blockingAt tabs isBlocking options j) ->
                getStackPosition activeIndex tabs isBlocking options
                = Some (Z.max 0 (i - activeIndex - 1 - p)))
            /\ ((forall i : Z, (activeIndex < i)%Z ->
                               ~ blockingAt tabs isBlocking options i) ->
                getStackPosition activeIndex tabs isBlocking options
                = Some (Z.max 0
                          (Z.of_nat (length tabs) - activeIndex - 1 - p))))).
Proof.
  intros Hp Hpad.
  assert (Hp' : truthyNumber (Some p) = Some p).
  { unfold truthyNumber. destruct (Z.eqb_spec p 0); [lia|reflexivity]. }
  split; [|split].
  - unfold getStackPosition, blockingTabIndexes, withoutPadding.
    cbn [blockMoveFilters direction padding enabled]. rewrite Hpad.
    rewrite Hp'. cbn [truthyNumber Z.eqb].
    destruct (tabAt tabs activeIndex) as [t|] eqn:Hat; [|reflexivity].
    apply tabAt_Some in Hat as [Hrange _].
    destruct (isBlocking t options); [reflexivity|].
    destruct (direction options) as [d|]; [|reflexivity].
    destruct (String.eqb d "left").
    { destruct (findLast _ _) as [b|] eqn:Hfind.
      - apply findLast_some in Hfind as [_ Hb]. apply Z.ltb_lt in Hb.
        destruct (Z.ltb_spec (Z.max 0 (activeIndex - b - 1 - p)) 0); [lia|].
        destruct (Z.ltb_spec (activeIndex - b - 1) 0); [lia|reflexivity].
      - destruct (Z.ltb_spec (Z.max 0 (Z.abs (0 - activeIndex) - p)) 0);
          [lia|].
        destruct (Z.ltb_spec (Z.abs (0 - activeIndex)) 0); [lia|reflexivity]. }
    destruct (String.eqb d "right"); [|reflexivity].
    destruct (List.find _ _) as [b|] eqn:Hfind.
    + apply find_some in Hfind as [_ Hb]. apply Z.ltb_lt in Hb.
      destruct (Z.ltb_spec (Z.max 0 (b - activeIndex - 1 - p)) 0); [lia|].
      destruct (Z.ltb_spec (b - activeIndex - 1) 0); [lia|reflexivity].
    + destruct (Z.ltb_spec
                  (Z.max 0 (Z.of_nat (length tabs) - activeIndex - 1 - p)) 0);
        [lia|].
      destruct (Z.ltb_spec (Z.of_nat (length tabs) - activeIndex - 1) 0);
        [lia|reflexivity].
  - intros d. unfold getStackPosition.
    destruct (tabAt tabs activeIndex) as [t|]; [|discriminate].
    destruct (isBlocking t options); [discriminate|].
    cbv zeta.
    destruct (Z.ltb _ 0) eqn:Hsign; [discriminate|].
    apply Z.ltb_ge in Hsign. intros [= <-]. exact Hsign.
  - intros active Hnd Hat Hfree.
    assert (Hrange := tabAt_Some _ _ _ Hat).
    unfold getStackPosition. rewrite Hat, Hfree, Hpad, Hp'.
    split; intros Hdir; rewrite Hdir; cbn [String.eqb Ascii.eqb Bool.eqb];
      split.
    + intros i Hi Hb Hgreatest.
      rewrite (findLast_increasing _ _ i).
      * destruct (Z.ltb_spec (Z.max 0 (activeIndex - i - 1 - p)) 0);
          [lia|reflexivity].
      * now apply blockingTabIndexes_increasing.
      * now apply blockingTabIndexes_In.
      * now apply Z.ltb_lt.
      * intros j Hj Hlt. apply Z.ltb_lt in Hlt.
        apply blockingTabIndexes_In in Hj; [|assumption].
        destruct (Z_le_gt_dec j i); [assumption|].
        exfalso. apply (Hgreatest j); [lia|assumption].
    + intros Hnone. rewrite findLast_none.
      * destruct (Z.ltb_spec (Z.max 0 (Z.abs (0 - activeIndex) - p)) 0);
          [lia|].
        f_equal. lia.
      * intros j Hj. apply blockingTabIndexes_In in Hj; [|assumption].
        destruct (Z.ltb_spec j activeIndex) as [Hlt|]; [|reflexivity].
        exfalso. now apply (Hnone j).
    + intros i Hi Hb Hsmallest.
      rewrite (find_increasing _ _ i).
      * destruct (Z.ltb_spec (Z.max 0 (i - activeIndex - 1 - p)) 0);
          [lia|reflexivity].
      * now apply blockingTabIndexes_increasing.
      * now apply blockingTabIndexes_In.
      * now apply Z.ltb_lt.
      * intros j Hj Hlt. apply Z.ltb_lt in Hlt.
        apply blockingTabIndexes_In in Hj; [|assumption].
        destruct (Z_le_gt_dec i j); [assumption|].
        exfalso. apply (Hsmallest j); [lia|assumption].
    + intros Hnone. rewrite find_none_all.
      * destruct (Z.ltb_spec
                    (Z.max 0 (Z.of_nat (length tabs) - activeIndex - 1 - p))
                    0); [lia|reflexivity].
      * intros j Hj. apply blockingTabIndexes_In in Hj; [|assumption].
        destruct (Z.ltb_spec activeIndex j) as [Hlt|]; [|reflexivity].
        exfalso. now apply (Hnone j).
Qed.

(** In [A, B(pinned), C, D, E]: with [E] active and padding 1 the raw
    distance [4 - 1 - 1 = 2] to the left becomes 1; with [D] active and
    padding 2 the raw distance 1 becomes [max(0, 1 - 2) = 0], the scenario
    of the specification. *)
Lemma getStackPosition_padding_clamp_witness :
  getStackPosition 4 scenarioTabs pinnedOnly
                   (optionsTowards (Some "left") (Some 1%Z))
  = Some 1%Z
  /\ getStackPosition 3 scenarioTabs pinnedOnly
                      (optionsTowards (Some "left") (Some 2%Z))
     = Some 0%Z.
Proof.
  split.
  - refine (proj1 (proj1 (proj2 (proj2
      (getStackPosition_padding_clamp scenarioTabs 4 pinnedOnly
         (optionsTowards (Some "left") (Some 1%Z)) 1%Z eq_refl eq_refl))
      (mkTab 5 "E" false) scenarioTabs_distinct eq_refl eq_refl) eq_refl)
      1%Z _ _ _).
    + lia.
    + exists (mkTab 2 "B" true). split; reflexivity.
    + intros j Hj (t & Ht & Hb).
      assert (j = 2 \/ j = 3)%Z as [->| ->] by lia;
        injection Ht as <-; discriminate Hb.
  - exact (proj1 (getStackPosition_padding_clamp scenarioTabs 3 pinnedOnly
                    (optionsTowards (Some "left") (Some 2%Z)) 2%Z
                    eq_refl eq_refl)).
Defined.

(** C4.  When the active index is outside the sequence, or the tab at
    the active index is blocking, [getStackPosition] returns
    [undefined]. *)
Theorem getStackPosition_no_move
    (tabs : list Tab) (activeIndex : Z) (isBlocking : Predicate)
    (options : Options) :
  ((activeIndex < 0)%Z \/ (Z.of_nat (length tabs) <= activeIndex)%Z)
  \/ blockingAt tabs isBlocking options activeIndex ->
  getStackPosition activeIndex tabs isBlocking options = None.
Proof.
  unfold getStackPosition. intros [Hout|(t & Hat & Hblocked)].
  - now rewrite tabAt_outside.
  - now rewrite Hat, Hblocked.
Qed.

Lemma getStackPosition_no_move_witness :
  getStackPosition 7 scenarioTabs pinnedOnly
                   (optionsTowards (Some "left") None) = None
  /\ getStackPosition 1 scenarioTabs pinnedOnly
                      (optionsTowards (Some "left") None) = None.
Proof.
  split.
  - apply getStackPosition_no_move. left. right. simpl. lia.
  - apply getStackPosition_no_move. right.
    exists (mkTab 2 "B" true). split; reflexivity.
Defined.

(** C10.  When the direction is neither ["left"] nor ["right"] (for
    instance ["auto"], or absent), [getStackPosition] returns
    [undefined], whatever the tabs, the index and the predicate. *)
Theorem getStackPosition_other_direction
    (tabs : list Tab) (activeIndex : Z) (isBlocking : Predicate)
    (options : Options) :
  direction options <> Some "left" ->
  direction options <> Some "right" ->
  getStackPosition activeIndex tabs isBlocking options = None.
Proof.
  intros Hleft Hright. unfold getStackPosition.
  destruct (tabAt tabs activeIndex) as [t|]; [|reflexivity].
  destruct (isBlocking t options); [reflexivity|].
  destruct (direction options) as [d|]; [|reflexivity].
  destruct (String.eqb_spec d "left") as [->|_]; [congruence|].
  destruct (String.eqb_spec d "right") as [->|_]; [congruence|].
  reflexivity.
Qed.

(** With [D] active in [A, B(pinned), C, D, E] a move of one slot exists
    towards either side, and the direction ["auto"] or no direction still
    gives no move. *)
Lemma getStackPosition_other_direction_witness :
  getStackPosition 3 scenarioTabs pinnedOnly
                   (optionsTowards (Some "left") None) = Some 1%Z
  /\ getStackPosition 3 scenarioTabs pinnedOnly
                      (optionsTowards (Some "right") None) = Some 1%Z
  /\ getStackPosition 3 scenarioTabs pinnedOnly
                      (optionsTowards (Some "auto") None) = None
  /\ getStackPosition 3 scenarioTabs pinnedOnly
                      (optionsTowards None None) = None.
Proof.
  split; [reflexivity|]. split; [reflexivity|]. split.
  - apply getStackPosition_other_direction; discriminate.
  - apply getStackPosition_other_direction; discriminate.
Defined.

(** ** The options resolver *)

Lemma includes_default (configured : list string) :
  existsb (fun filter => existsb (String.eqb filter) defaultBlockMoveFilters)
          configured = true
  <-> exists f, In f configured /\ In f defaultBlockMoveFilters.
Proof.
  rewrite existsb_exists. split; intros (f & Hf & Hd); exists f; split;
    try assumption.
  - apply existsb_exists in Hd as (g & Hg & E).
    apply String.eqb_eq in E. now subst.
  - apply existsb_exists. exists f. split; [assumption|].
    apply String.eqb_refl.
Qed.

(** C5.  The effective filter list is the configured list when that
    list holds a member of the default set [["pinned"]], and is the
    default set itself, nothing of the configured list added, otherwise;
    so the configured list [["dirty"]] gives [["pinned"]]. *)
Theorem getBlockMoveFiltersOption_default_substitution
    (this : TabStacker) (scope : Scope) :
  defaultBlockMoveFilters = ["pinned"]
  /\ ((exists f, In f (blockMoveFilters (getOptions this scope))
                 /\ In f defaultBlockMoveFilters) ->
      getBlockMoveFiltersOption this scope
      = blockMoveFilters (getOptions this scope))
  /\ (~ (exists f, In f (blockMoveFilters (getOptions this scope))
                   /\ In f defaultBlockMoveFilters) ->
      getBlockMoveFiltersOption this scope = defaultBlockMoveFilters)
  /\ (blockMoveFilters (getOptions this scope) = ["dirty"] ->
      getBlockMoveFiltersOption this scope = ["pinned"]).
Proof.
  split; [reflexivity|]. unfold getBlockMoveFiltersOption.
  destruct (existsb _ (blockMoveFilters (getOptions this scope))) eqn:E.
  - apply includes_default in E. split; [reflexivity|]. split.
    + intros H. contradiction.
    + intros H. rewrite H in E.
      destruct E as (f & [<-|[]] & [Hd|[]]). discriminate Hd.
  - split; [|split; reflexivity].
    intros H. apply includes_default in H. congruence.
Qed.

(** The configuration [["dirty"]] gives the effective list
    [["pinned"]]; [["dirty", "pinned"]] is kept as it is. *)
Lemma getBlockMoveFiltersOption_default_substitution_witness :
  getBlockMoveFiltersOption (stackerConfigured (Some ["dirty"])) ScopeNull
  = ["pinned"]
  /\ getBlockMoveFiltersOption (stackerConfigured (Some ["dirty"; "pinned"]))
                               ScopeNull
     = ["dirty"; "pinned"].
Proof.
  split.
  - exact (proj2 (proj2 (proj2
      (getBlockMoveFiltersOption_default_substitution
         (stackerConfigured (Some ["dirty"])) ScopeNull))) eq_refl).
  - refine (proj1 (proj2
      (getBlockMoveFiltersOption_default_substitution
         (stackerConfigured (Some ["dirty"; "pinned"])) ScopeNull)) _).
    exists "pinned". split; [right; left; reflexivity|left; reflexivity].
Defined.

(** ** The blocking predicate *)

Section BlockingPredicate.

Local Open Scope list_scope.

Variable h : Host.
Variable tab : Tab.

(** Filling the cache does not change the pattern of any token. *)
Lemma resolvedFilter_samePatterns c f :
  samePatterns h c (fst (resolvedFilter h c f)).
Proof.
  intros g. unfold resolvedFilter at 3.
  destruct (existsb _ ["path:"]); [|reflexivity].
  destruct (c !! f) as [r|] eqn:Hf; [reflexivity|]. cbn [fst].
  unfold resolvedFilter.
  destruct (existsb (fun p => startsWith g p) ["path:"]); [|reflexivity].
  destruct (decide (f = g)) as [->|Hne].
  - now rewrite Hf, lookup_insert_eq.
  - rewrite lookup_insert_ne by assumption.
    now destruct (c !! g).
Qed.

Lemma samePatterns_trans c1 c2 c3 :
  samePatterns h c1 c2 -> samePatterns h c2 c3 -> samePatterns h c1 c3.
Proof. intros H12 H23 f. now rewrite H12. Qed.

Lemma customStep_fst c f :
  fst (customStep h c tab f)
  = if hasPrefix f then fst (resolvedFilter h c f) else c.
Proof.
  unfold customStep. destruct (hasPrefix f); [|reflexivity].
  destruct (resolvedFilter h c f) as [c' r].
  now destruct (findCustomMap r).
Qed.

Lemma customStep_snd c f :
  snd (customStep h c tab f)
  = if hasPrefix f then
      match findCustomMap (snd (resolvedFilter h c f)) with
      | Some customFilter =>
          matchTab customFilter h tab (snd (resolvedFilter h c f))
      | None => Returns false
      end
    else Returns false.
Proof.
  unfold customStep. destruct (hasPrefix f); [|reflexivity].
  destruct (resolvedFilter h c f) as [c' r]. cbn [snd].
  now destruct (findCustomMap r).
Qed.

Lemma filterStep_fst c f :
  fst (filterStep h c tab f) = fst (customStep h c tab f).
Proof.
  unfold filterStep. destruct (customStep h c tab f) as [c' [[|]|e]];
    reflexivity.
Qed.

Lemma filterStep_snd c f :
  snd (filterStep h c tab f)
  = match snd (customStep h c tab f) with
    | Returns false => registryStep h tab f
    | decisive => decisive
    end.
Proof.
  unfold filterStep. destruct (customStep h c tab f) as [c' [[|]|e]];
    reflexivity.
Qed.

Lemma filterStep_samePatterns c f :
  samePatterns h c (fst (filterStep h c tab f)).
Proof.
  rewrite filterStep_fst, customStep_fst. destruct (hasPrefix f).
  - apply resolvedFilter_samePatterns.
  - intros g. reflexivity.
Qed.

(** The decision for a token depends on the cache through the
    token's pattern only. *)
Lemma tokenOutcome_samePatterns c c' f :
  samePatterns h c c' -> tokenOutcome h c tab f = tokenOutcome h c' tab f.
Proof.
  intros Hsame. unfold tokenOutcome.
  now rewrite !filterStep_snd, !customStep_snd, (Hsame f).
Qed.

(** The loop returns the first decision, in list order, that is not
    "go on". *)
Lemma blockingLoop_firstDecisive c filters :
  snd (blockingLoop h c tab filters)
  = firstDecisive (List.map (tokenOutcome h c tab) filters).
Proof.
  revert c. induction filters as [|f rest IH]; intros c; [reflexivity|].
  cbn [blockingLoop List.map firstDecisive].
  change (tokenOutcome h c tab f) with (snd (filterStep h c tab f)).
  pose proof (filterStep_samePatterns c f) as Hsame.
  destruct (filterStep h c tab f) as [c' [[|]|e]]; cbn [fst snd] in *;
    try reflexivity.
  rewrite IH. f_equal. apply map_ext. intros g. symmetry.
  now apply tokenOutcome_samePatterns.
Qed.

Lemma blockingLoop_samePatterns c filters :
  samePatterns h c (fst (blockingLoop h c tab filters)).
Proof.
  revert c. induction filters as [|f rest IH]; intros c.
  - intros g. reflexivity.
  - cbn [blockingLoop].
    pose proof (filterStep_samePatterns c f) as Hsame.
    destruct (filterStep h c tab f) as [c' [[|]|e]]; cbn [fst] in *;
      try assumption.
    eapply samePatterns_trans; [exact Hsame|apply IH].
Qed.

Lemma firstDecisive_disjunction outcomes :
  forallb (fun o => negb (raises o)) outcomes = true ->
  firstDecisive outcomes = Returns (existsb blocks outcomes).
Proof.
  induction outcomes as [|[[|]|e] rest IH]; cbn; intros H;
    try reflexivity; try discriminate. now apply IH.
Qed.

(** When no token of the list raises, the predicate is the
    disjunction of the decisions for its tokens. *)
Lemma isBlockingPredicate_disjunction c options :
  (forall f, In f (blockMoveFilters options) ->
             raises (tokenOutcome h c tab f) = false) ->
  snd (isBlockingPredicate h c tab options)
  = Returns (existsb (fun f => blocks (tokenOutcome h c tab f))
                     (blockMoveFilters options)).
Proof.
  intros Hquiet. unfold isBlockingPredicate.
  rewrite blockingLoop_firstDecisive, firstDecisive_disjunction.
  - f_equal. induction (blockMoveFilters options) as [|f rest IH];
      [reflexivity|].
    cbn [List.map existsb]. f_equal. apply IH.
    intros g Hg. apply Hquiet. now right.
  - apply forallb_forall. intros o Ho.
    apply in_map_iff in Ho as (f & <- & Hf). now rewrite Hquiet.
Qed.

(** So, when no token raises, two lists with the same tokens, in any
    order and with any repetition, give the same answer. *)
Lemma isBlockingPredicate_same_tokens c options options' :
  (forall f, In f (blockMoveFilters options) ->
             raises (tokenOutcome h c tab f) = false) ->
  (forall f, In f (blockMoveFilters options)
             <-> In f (blockMoveFilters options')) ->
  snd (isBlockingPredicate h c tab options)
  = snd (isBlockingPredicate h c tab options').
Proof.
  intros Hquiet Hsame.
  rewrite !isBlockingPredicate_disjunction; try assumption.
  - f_equal. apply eq_true_iff_eq. rewrite !existsb_exists.
    split; intros (f & Hf & Hb); exists f; split; try assumption;
      now apply Hsame.
  - intros f Hf. apply Hquiet. now apply Hsame.
Qed.

End BlockingPredicate.

(** The answers of the predicate stay the same while its cache fills:
    after a call has run, every call gets the answer it would have got
    before. *)
Lemma isBlockingPredicate_cache_stable
    (h : Host) (c : gmap string string) (tab tab' : Tab)
    (options options' : Options) :
  snd (isBlockingPredicate h (fst (isBlockingPredicate h c tab options))
                           tab' options')
  = snd (isBlockingPredicate h c tab' options').
Proof.
  unfold isBlockingPredicate. rewrite !blockingLoop_firstDecisive.
  f_equal. apply map_ext. intros f. symmetry.
  apply tokenOutcome_samePatterns, blockingLoop_samePatterns.
Qed.

(** ** Strings and replacement *)

(** Let [cbn] unfold the append of strings on a constructor. *)
#[local] Arguments String.append !s1 s2 : simpl nomatch.

Section Replacement.

Local Open Scope string_scope.

Lemma app_empty_r s : s +:+ "" = s.
Proof. induction s as [|c s IH]; cbn; [reflexivity|now rewrite IH]. Qed.

Lemma app_assoc_string a b c : (a +:+ b) +:+ c = a +:+ (b +:+ c).
Proof. induction a as [|x a IH]; cbn; [reflexivity|now rewrite IH]. Qed.

Lemma freeOf_app c a b : freeOf c (a +:+ b) = freeOf c a && freeOf c b.
Proof.
  induction a as [|x a IH]; cbn; [reflexivity|].
  rewrite IH. now rewrite andb_assoc.
Qed.

Lemma prefix_app p s : String.prefix p (p +:+ s) = true.
Proof.
  induction p as [|c p IH]; cbn; [now destruct s|].
  destruct (ascii_dec c c); [exact IH|congruence].
Qed.

Lemma dropString_app p s : dropString (String.length p) (p +:+ s) = s.
Proof. induction p as [|c p IH]; cbn; [reflexivity|exact IH]. Qed.

Lemma prefix_head_mismatch c d p s :
  Ascii.eqb d c = false -> String.prefix (String c p) (String d s) = false.
Proof.
  intros H. cbn. destruct (ascii_dec c d) as [->|]; [|reflexivity].
  now rewrite Ascii.eqb_refl in H.
Qed.

Variable p : string.
Variable template : string.

(** A text without [$] holds no match. *)
Lemma replaceAllFrom_free before s :
  freeOf "$" s = true ->
  replaceAllFrom (String "$" p) template before 0 s = s.
Proof.
  revert before. induction s as [|c s IH]; intros before H; [reflexivity|].
  cbn [freeOf] in H. apply andb_prop in H as [Hc Hs].
  apply negb_true_iff in Hc.
  cbn [replaceAllFrom]. rewrite prefix_head_mismatch by assumption.
  now rewrite IH.
Qed.

Lemma replaceAllFrom_app_free before pre s :
  freeOf "$" pre = true ->
  replaceAllFrom (String "$" p) template before 0 (pre +:+ s)
  = pre +:+ replaceAllFrom (String "$" p) template (before +:+ pre) 0 s.
Proof.
  revert before. induction pre as [|c pre IH]; intros before H.
  - cbn. now rewrite app_empty_r.
  - cbn [freeOf] in H. apply andb_prop in H as [Hc Hpre].
    apply negb_true_iff in Hc.
    cbn [String.append replaceAllFrom].
    rewrite prefix_head_mismatch by assumption.
    rewrite IH by assumption. now rewrite app_assoc_string.
Qed.

(** Passing the characters of a match. *)
Lemma replaceAllFrom_skip pat before x s :
  replaceAllFrom pat template before (String.length x) (x +:+ s)
  = replaceAllFrom pat template (before +:+ x) 0 s.
Proof.
  revert before. induction x as [|c x IH]; intros before.
  - cbn. now rewrite app_empty_r.
  - cbn [String.length String.append replaceAllFrom].
    rewrite IH. now rewrite app_assoc_string.
Qed.

(** At a match the substitution is put in and the search goes on
    behind the match. *)
Lemma replaceAllFrom_match before post :
  replaceAllFrom (String "$" p) template before 0 (String "$" p +:+ post)
  = getSubstitution (String "$" p) before post template
    +:+ replaceAllFrom (String "$" p) template
                       (before +:+ String "$" p) 0 post.
Proof.
  pose proof (prefix_app (String "$" p) post) as Hpre.
  pose proof (dropString_app (String "$" p) post) as Hdrop.
  cbn [String.append] in *. cbn [replaceAllFrom].
  rewrite Hpre, Hdrop. f_equal.
  cbn [String.length Nat.pred]. rewrite replaceAllFrom_skip.
  now rewrite app_assoc_string.
Qed.

(** [$] patterns: a replacement text without [$], or whose only [$]
    opens a [${name}] token, stands for itself. *)
Lemma getSubstitution_free matched before after t :
  freeOf "$" t = true -> getSubstitution matched before after t = t.
Proof.
  induction t as [|c t IH]; intros H; [reflexivity|].
  cbn [freeOf] in H. apply andb_prop in H as [Hc Ht].
  apply negb_true_iff in Hc. cbn [getSubstitution]. rewrite Hc.
  now rewrite IH.
Qed.

Lemma getSubstitution_app_free matched before after t1 t2 :
  freeOf "$" t1 = true ->
  getSubstitution matched before after (t1 +:+ t2)
  = t1 +:+ getSubstitution matched before after t2.
Proof.
  induction t1 as [|c t1 IH]; intros H; [reflexivity|].
  cbn [freeOf] in H. apply andb_prop in H as [Hc Ht].
  apply negb_true_iff in Hc. cbn [String.append getSubstitution].
  rewrite Hc. now rewrite IH.
Qed.

End Replacement.

Lemma variablePattern_unfold k :
  variablePattern k = String "$" (String "{" (k +:+ "}")).
Proof. reflexivity. Qed.

Lemma validKey_free k :
  validKey k = true -> freeOf "$" k = true /\ freeOf "}" k = true.
Proof. unfold validKey. intros H. now apply andb_prop in H. Qed.

(** The text [${name}] in a replacement text stands for itself. *)
Lemma getSubstitution_token matched before after vpre name vpost :
  freeOf "$" vpre = true -> validKey name = true ->
  freeOf "$" vpost = true ->
  getSubstitution matched before after
                  (vpre +:+ (variablePattern name +:+ vpost))
  = vpre +:+ (variablePattern name +:+ vpost).
Proof.
  intros Hpre Hname Hpost. apply validKey_free in Hname as [Hname _].
  rewrite getSubstitution_app_free by assumption. f_equal.
  rewrite variablePattern_unfold. cbn [String.append getSubstitution].
  cbn [Ascii.eqb Bool.eqb]. f_equal. f_equal.
  apply getSubstitution_free.
  rewrite !freeOf_app, Hname, Hpost. reflexivity.
Qed.

Lemma replaceAllFrom_miss pat template before c rest :
  String.prefix pat (String c rest) = false ->
  replaceAllFrom pat template before 0 (String c rest)
  = String c (replaceAllFrom pat template (before +:+ String c "") 0 rest).
Proof. intros H. cbn [replaceAllFrom]. now rewrite H. Qed.

(** Two tokens that start at the same place are the same token. *)
Lemma key_prefix_eq k' : forall k post,
  freeOf "}" k = true -> freeOf "}" k' = true ->
  String.prefix (k' +:+ "}") ((k +:+ "}") +:+ post) = true -> k' = k.
Proof.
  induction k' as [|c' k' IH]; intros [|c k] post Hk Hk' H;
    cbn [String.append freeOf String.prefix] in *.
  - reflexivity.
  - apply andb_prop in Hk as [Hc _]. apply negb_true_iff in Hc.
    destruct (ascii_dec "}" c) as [<-|]; [discriminate Hc|discriminate H].
  - apply andb_prop in Hk' as [Hc _]. apply negb_true_iff in Hc.
    destruct (ascii_dec c' "}") as [->|]; [discriminate Hc|discriminate H].
  - apply andb_prop in Hk as [_ Hk]. apply andb_prop in Hk' as [_ Hk'].
    destruct (ascii_dec c' c) as [->|]; [|discriminate H].
    f_equal. now apply (IH k post).
Qed.

(** The pass of another name leaves a token alone. *)
Lemma replaceAll_other_token k' k template pre post :
  k' <> k -> validKey k = true -> validKey k' = true ->
  freeOf "$" pre = true -> freeOf "$" post = true ->
  replaceAll (variablePattern k') template
             (pre +:+ (variablePattern k +:+ post))
  = pre +:+ (variablePattern k +:+ post).
Proof.
  intros Hne Hk Hk' Hpre Hpost.
  apply validKey_free in Hk as [Hk1 Hk2].
  apply validKey_free in Hk' as [_ Hk'2].
  unfold replaceAll. rewrite !variablePattern_unfold.
  rewrite replaceAllFrom_app_free by assumption. f_equal.
  cbn [String.append].
  assert (Hmiss :
    String.prefix (String "$" (String "{" (k' +:+ "}")))
                  (String "$" (String "{" ((k +:+ "}") +:+ post))) = false).
  { cbn [String.prefix].
    destruct (ascii_dec "$" "$"); [|congruence].
    destruct (ascii_dec "{" "{"); [|congruence].
    destruct (String.prefix (k' +:+ "}") ((k +:+ "}") +:+ post)) eqn:E;
      [|reflexivity].
    exfalso. apply Hne. now apply (key_prefix_eq k' k post). }
  rewrite (replaceAllFrom_miss _ _ _ _ _ Hmiss). f_equal.
  apply replaceAllFrom_free.
  cbn [freeOf Ascii.eqb Bool.eqb negb andb].
  rewrite !freeOf_app, Hk1, Hpost. reflexivity.
Qed.

(** The pass of its own name puts the value in the place of a token. *)
Lemma replaceAll_own_token k template pre post :
  freeOf "$" pre = true -> freeOf "$" post = true ->
  replaceAll (variablePattern k) template
             (pre +:+ (variablePattern k +:+ post))
  = pre +:+ (getSubstitution (variablePattern k) pre post template +:+ post).
Proof.
  intros Hpre Hpost. unfold replaceAll. rewrite !variablePattern_unfold.
  rewrite replaceAllFrom_app_free by assumption. f_equal.
  rewrite replaceAllFrom_match. f_equal.
  now apply replaceAllFrom_free.
Qed.

(** ** The variable resolver *)

Section Passes.

Local Open Scope list_scope.

Variable h : Host.
Variable args : Args.

(** Passes of other names leave a token alone. *)
Lemma passes_absent es key pre post :
  Forall (fun e => validKey (fst e) = true) es ->
  (forall e, In e es -> fst e <> key) ->
  validKey key = true ->
  freeOf "$" pre = true -> freeOf "$" post = true ->
  fold_left (substitutePass h args) es (tokenIn pre key post)
  = tokenIn pre key post.
Proof.
  intros Hvalid Hother Hkey Hpre Hpost.
  induction es as [|e es IH]; [reflexivity|].
  apply Forall_cons in Hvalid as [He Hvalid]. cbn [fold_left].
  assert (Hstep : substitutePass h args (tokenIn pre key post) e
                  = tokenIn pre key post).
  { unfold substitutePass, tokenIn.
    apply replaceAll_other_token; try assumption.
    apply Hother. now left. }
  rewrite Hstep. apply IH; [assumption|].
  intros e' He'. apply Hother. now right.
Qed.

Lemma In_drop {A : Type} (x : A) (n : nat) (l : list A) :
  In x (drop n l) -> In x l.
Proof.
  revert n. induction l as [|y l IH]; intros [|n]; cbn [skipn]; intros Hx;
    try assumption.
  right. now apply (IH n).
Qed.

(** The passes from position [n] on, run over a token of the name at
    position [i]: when the name's pass is among them it puts the value
    in and the passes behind it go on; otherwise the token stays. *)
Lemma passes_token es :
  NoDup (List.map fst es) ->
  Forall (fun e => validKey (fst e) = true) es ->
  forall (i n : nat) key fn pre post,
    es !! i = Some (key, fn) ->
    freeOf "$" pre = true -> freeOf "$" post = true ->
    fold_left (substitutePass h args) (drop n es) (tokenIn pre key post)
    = if decide (n <= i)%nat then
        fold_left (substitutePass h args) (drop (S i) es)
          (pre +:+ (getSubstitution (variablePattern key) pre post
                                    (fn h args) +:+ post))
      else tokenIn pre key post.
Proof.
  induction es as [|e es IH]; intros Hnd Hvalid i n key fn pre post Hi
    Hpre Hpost; [discriminate Hi|].
  cbn [List.map] in Hnd. apply NoDup_cons in Hnd as [Hfresh Hnd].
  apply Forall_cons in Hvalid as [He Hvalid].
  assert (Hkey : validKey key = true).
  { destruct i as [|i]; cbn in Hi.
    - now injection Hi as ->.
    - rewrite Forall_forall in Hvalid. apply (Hvalid (key, fn)).
      apply list_elem_of_lookup. now exists i. }
  destruct n as [|n]; destruct i as [|i]; cbn in Hi.
  - (* the pass of the name itself *)
    injection Hi as ->. cbn [fold_left skipn].
    destruct (decide (0 <= 0)%nat); [|lia]. f_equal.
    unfold substitutePass, tokenIn. cbn [fst snd].
    now apply replaceAll_own_token.
  - (* the pass of an earlier name *)
    assert (Hstep : substitutePass h args (tokenIn pre key post) e
                    = tokenIn pre key post).
    { unfold substitutePass, tokenIn.
      apply replaceAll_other_token; try assumption.
      intros E. apply Hfresh. rewrite E.
      apply list_elem_of_In, in_map_iff. exists (key, fn).
      split; [reflexivity|].
      apply list_elem_of_In, list_elem_of_lookup. now exists i. }
    cbn [fold_left skipn]. rewrite Hstep.
    specialize (IH Hnd Hvalid i 0%nat key fn pre post Hi Hpre Hpost).
    change (drop 0 es) with es in IH. rewrite IH.
    destruct (decide (0 <= i)%nat); [|lia].
    destruct (decide (0 <= S i)%nat); [reflexivity|lia].
  - (* the name's pass is over *)
    injection Hi as ->. cbn [fst] in *. cbn [skipn].
    destruct (decide (S n <= 0)%nat); [lia|].
    apply passes_absent; try assumption.
    + rewrite Forall_forall in *. intros x Hx. apply Hvalid.
      apply list_elem_of_In. apply list_elem_of_In in Hx.
      now apply In_drop in Hx.
    + intros x Hx E. apply Hfresh. rewrite <- E.
      apply list_elem_of_In, in_map_iff. exists x. split; [reflexivity|].
      now apply In_drop in Hx.
  - cbn [skipn].
    specialize (IH Hnd Hvalid i n key fn pre post Hi Hpre Hpost).
    rewrite IH.
    destruct (decide (n <= i)%nat); destruct (decide (S n <= S i)%nat);
      try reflexivity; lia.
Qed.

End Passes.

Lemma entries_distinct : NoDup variableNames.
Proof. apply (bool_decide_unpack _). reflexivity. Qed.

Lemma entries_valid :
  Forall (fun e => validKey (fst e) = true) variables.entries.
Proof.
  repeat (apply Forall_cons; split; [reflexivity|]). apply Forall_nil_2.
Qed.

(** What becomes of one token.  For a token [${key}] of the template
    standing between texts without [$]: the value put in its place is
    seen by the passes of the names behind [key] in the table and by no
    other pass.  So a token [${name}] in that value stays as it is when
    [name] is [key] or stands before it in the table, and is replaced by
    the pass of [name] when [name] stands behind [key]. *)
Theorem resolveVariables_later_passes_only
    (h : Host) (args : Args) (i : nat) (key : string)
    (fn : Host -> Args -> string) (pre post : string) :
  variables.entries !! i = Some (key, fn) ->
  freeOf "$" pre = true ->
  freeOf "$" post = true ->
  resolveVariables h (tokenIn pre key post) args
  = passesFrom (S i) h args
      (pre +:+ (getSubstitution (variablePattern key) pre post (fn h args)
                +:+ post))
  /\ (forall (j : nat) (name : string) (fn' : Host -> Args -> string)
             (vpre vpost : string),
        variables.entries !! j = Some (name, fn') ->
        fn h args = tokenIn vpre name vpost ->
        freeOf "$" vpre = true -> freeOf "$" vpost = true ->
        ((j <= i)%nat ->
         resolveVariables h (tokenIn pre key post) args
         = tokenIn (pre +:+ vpre) name (vpost +:+ post))
        /\ ((i < j)%nat ->
            resolveVariables h (tokenIn pre key post) args
            = passesFrom (S j) h args
                ((pre +:+ vpre)
                 +:+ (getSubstitution (variablePattern name) (pre +:+ vpre)
                                      (vpost +:+ post) (fn' h args)
                      +:+ (vpost +:+ post))))).
Proof.
  intros Hi Hpre Hpost.
  assert (Hfirst :
    resolveVariables h (tokenIn pre key post) args
    = passesFrom (S i) h args
        (pre +:+ (getSubstitution (variablePattern key) pre post (fn h args)
                  +:+ post))).
  { pose proof (passes_token h args variables.entries entries_distinct
                  entries_valid i 0%nat key fn pre post Hi Hpre Hpost) as H.
    change (drop 0 variables.entries) with variables.entries in H.
    destruct (decide (0 <= i)%nat); [exact H|lia]. }
  split; [exact Hfirst|].
  intros j name fn' vpre vpost Hj Hvalue Hvpre Hvpost.
  assert (Hname : validKey name = true).
  { pose proof entries_valid as Hv. rewrite Forall_forall in Hv.
    apply (Hv (name, fn')). apply list_elem_of_lookup. now exists j. }
  assert (Hput :
    pre +:+ (getSubstitution (variablePattern key) pre post (fn h args)
             +:+ post)
    = tokenIn (pre +:+ vpre) name (vpost +:+ post)).
  { rewrite Hvalue. unfold tokenIn.
    rewrite getSubstitution_token by assumption.
    now rewrite !app_assoc_string. }
  rewrite Hfirst, Hput. unfold passesFrom.
  rewrite (passes_token h args variables.entries entries_distinct
             entries_valid j (S i) name fn');
    try assumption; try (rewrite freeOf_app; now apply andb_true_intro).
  split; intros Hord; destruct (decide (S i <= j)%nat); try lia; reflexivity.
Qed.

(** With the home directory named [${cwd}], the token put in for
    [${userHome}] is replaced by the later pass of [cwd]; with the
    working directory named [${userHome}], the token put in for [${cwd}]
    stays, the pass of [userHome] being over. *)
Lemma resolveVariables_later_passes_only_witness :
  resolveVariables (hostNamed "${cwd}" "/work") "${userHome}" noArgs
  = "/work"
  /\ resolveVariables (hostNamed "/home/u" "${userHome}") "${cwd}" noArgs
     = "${userHome}".
Proof.
  split.
  - exact (proj2 (proj2 (resolveVariables_later_passes_only
             (hostNamed "${cwd}" "/work") noArgs 0 "userHome"
             variables.userHome "" "" eq_refl eq_refl eq_refl)
             12%nat "cwd" variables.cwd "" "" eq_refl eq_refl eq_refl eq_refl)
             ltac:(lia)).
  - exact (proj1 (proj2 (resolveVariables_later_passes_only
             (hostNamed "/home/u" "${userHome}") noArgs 12 "cwd"
             variables.cwd "" "" eq_refl eq_refl eq_refl)
             0%nat "userHome" variables.userHome "" "" eq_refl eq_refl
             eq_refl eq_refl)
             ltac:(lia)).
Defined.

(** C7 as stated fails: with the home directory named [${cwd}] the
    value put in for [${userHome}] holds the token [${cwd}], and the
    result is the working directory, without that token. *)
Lemma resolveVariables_reexpands : ~ noReexpansion.
Proof.
  intros Hclaim.
  specialize (Hclaim (hostNamed "${cwd}" "/work") noArgs "${userHome}"
                     "userHome" "cwd" variables.userHome).
  assert (Hresult :
    includes (resolveVariables (hostNamed "${cwd}" "/work") "${userHome}"
                               noArgs)
             (variablePattern "cwd") = false) by reflexivity.
  rewrite Hclaim in Hresult; try reflexivity; try discriminate Hresult.
  - left. reflexivity.
  - unfold variableNames. cbn. tauto.
Qed.

(** ** Tokens that stay *)

Lemma includes_unfold (s sub : string) :
  includes s sub
  = String.prefix sub s
    || match s with
       | EmptyString => false
       | String _ rest => includes rest sub
       end.
Proof. destruct s; reflexivity. Qed.

Lemma includes_cons (c : ascii) (rest sub : string) :
  includes rest sub = true -> includes (String c rest) sub = true.
Proof. intros H. rewrite includes_unfold, H. apply orb_true_r. Qed.

Lemma includes_app_r (x s sub : string) :
  includes s sub = true -> includes (x +:+ s) sub = true.
Proof.
  intros H. induction x as [|c x IH]; [exact H|].
  cbn [String.append]. now apply includes_cons.
Qed.

Lemma prefix_app_l (sub : string) : forall x s,
  String.prefix sub x = true -> String.prefix sub (x +:+ s) = true.
Proof.
  induction sub as [|a sub IH]; intros x s H.
  - now destruct (x +:+ s).
  - destruct x as [|b x]; [discriminate H|].
    cbn [String.append String.prefix] in *.
    destruct (ascii_dec a b); [now apply IH|discriminate H].
Qed.

Lemma includes_app_l (x s sub : string) :
  includes x sub = true -> includes (x +:+ s) sub = true.
Proof.
  induction x as [|c x IH]; intros H; rewrite includes_unfold in H.
  - rewrite orb_false_r in H. rewrite includes_unfold.
    now rewrite (prefix_app_l sub "" s H).
  - apply orb_prop in H as [H|H].
    + rewrite includes_unfold, (prefix_app_l sub (String c x) s H).
      reflexivity.
    + cbn [String.append]. apply includes_cons. now apply IH.
Qed.

Lemma includes_prefix (p s : string) :
  String.prefix p s = true -> includes s p = true.
Proof. intros H. now rewrite includes_unfold, H. Qed.

Lemma prefix_split (p : string) : forall s,
  String.prefix p s = true -> exists post, s = p +:+ post.
Proof.
  induction p as [|a p IH]; intros s H; [now exists s|].
  destruct s as [|b s]; [discriminate H|]. cbn [String.prefix] in H.
  destruct (ascii_dec a b) as [->|]; [|discriminate H].
  destruct (IH s H) as [post ->]. now exists post.
Qed.

(** A text that starts with [$] cannot begin inside a text without
    [$]. *)
Lemma includes_behind_free (x post p : string) :
  freeOf "$" x = true ->
  includes (x +:+ post) (String "$" p) = true ->
  includes post (String "$" p) = true.
Proof.
  induction x as [|c x IH]; intros Hx H; [exact H|].
  cbn [freeOf] in Hx. apply andb_prop in Hx as [Hc Hx].
  apply negb_true_iff in Hc.
  cbn [String.append] in H. rewrite includes_unfold in H.
  rewrite prefix_head_mismatch in H by assumption.
  now apply IH.
Qed.

Lemma token_free (k : string) :
  validKey k = true -> freeOf "$" (String "{" (k +:+ "}")) = true.
Proof.
  intros Hk. apply validKey_free in Hk as [Hk _].
  cbn [freeOf Ascii.eqb Bool.eqb negb andb]. now rewrite freeOf_app, Hk.
Qed.

(** The [$] patterns of a replacement text leave a token [${name}]
    of that text in the result. *)
Lemma getSubstitution_keeps_token (matched before after name : string) :
  validKey name = true ->
  forall (n : nat) (v : string),
    (String.length v <= n)%nat ->
    includes v (variablePattern name) = true ->
    includes (getSubstitution matched before after v) (variablePattern name)
    = true.
Proof.
  intros Hname. pose proof (token_free name Hname) as Hfree.
  assert (Hhere : forall v,
    String.prefix (variablePattern name) v = true ->
    exists post,
      v = variablePattern name +:+ post
      /\ getSubstitution matched before after v
         = variablePattern name
           +:+ getSubstitution matched before after post).
  { intros v Hv. destruct (prefix_split _ _ Hv) as [post ->].
    exists post. split; [reflexivity|].
    rewrite variablePattern_unfold. cbn [String.append getSubstitution].
    cbn [Ascii.eqb Bool.eqb]. f_equal.
    change (String "{" ((name +:+ "}") +:+ post))
      with (String "{" (name +:+ "}") +:+ post).
    now rewrite getSubstitution_app_free. }
  induction n as [|n IH]; intros v Hlen Hin.
  { destruct v; [discriminate Hin|cbn in Hlen; lia]. }
  rewrite includes_unfold in Hin. apply orb_prop in Hin as [Hin|Hin].
  { destruct (Hhere v Hin) as (post & _ & ->).
    apply includes_prefix, prefix_app. }
  destruct v as [|c rest]; [discriminate Hin|]. cbn [String.length] in Hlen.
  cbn [getSubstitution]. destruct (Ascii.eqb_spec c "$") as [->|Hc].
  2:{ apply includes_cons, IH; [lia|exact Hin]. }
  destruct rest as [|d rest']; [discriminate Hin|].
  cbn [String.length] in Hlen.
  assert (Hrest' : Ascii.eqb d "$" = false ->
                   includes rest' (variablePattern name) = true).
  { intros Hd. rewrite includes_unfold in Hin.
    rewrite variablePattern_unfold in Hin at 1.
    rewrite prefix_head_mismatch in Hin by assumption. exact Hin. }
  destruct (Ascii.eqb_spec d "$") as [->|Hd].
  { rewrite includes_unfold in Hin. apply orb_prop in Hin as [Hin|Hin].
    - destruct (Hhere _ Hin) as (post & Hv & _).
      rewrite variablePattern_unfold in Hv. cbn [String.append] in Hv.
      injection Hv as ->.
      change (String "{" ((name +:+ "}") +:+ post))
        with (String "{" (name +:+ "}") +:+ post).
      rewrite getSubstitution_app_free by assumption.
      apply includes_prefix. rewrite variablePattern_unfold.
      apply (prefix_app (String "$" (String "{" (name +:+ "}")))).
    - apply includes_cons, IH; [lia|exact Hin]. }
  specialize (Hrest' eq_refl).
  destruct (Ascii.eqb d "&"); [apply includes_app_r, IH; [lia|assumption]|].
  destruct (Ascii.eqb d "`"); [apply includes_app_r, IH; [lia|assumption]|].
  destruct (Ascii.eqb d "'"); [apply includes_app_r, IH; [lia|assumption]|].
  apply includes_cons, IH; [cbn [String.length]; lia|exact Hin].
Qed.

(** A global replacement puts the replacement text in: what every
    substitution of that text holds, the result holds. *)
Lemma replaceAllFrom_puts (p template sub : string) :
  (forall matched before after,
      includes (getSubstitution matched before after template) sub = true) ->
  forall s before,
    includes s (String "$" p) = true ->
    includes (replaceAllFrom (String "$" p) template before 0 s) sub = true.
Proof.
  intros Hsub. induction s as [|c s IH]; intros before Hin;
    [discriminate Hin|].
  cbn [replaceAllFrom]. rewrite includes_unfold in Hin.
  destruct (String.prefix (String "$" p) (String c s)).
  - apply includes_app_l, Hsub.
  - cbn [orb] in Hin. apply includes_cons, IH, Hin.
Qed.

(** The match of one token does not reach into another token. *)
Lemma token_behind_match (k' k s : string) :
  k' <> k -> validKey k = true -> validKey k' = true ->
  String.prefix (variablePattern k') s = true ->
  includes s (variablePattern k) = true ->
  includes (dropString (String.length (variablePattern k')) s)
           (variablePattern k) = true.
Proof.
  intros Hne Hk Hk' Hpre Hin.
  destruct (prefix_split _ _ Hpre) as [post ->]. rewrite dropString_app.
  pose proof (token_free k' Hk') as Hfree.
  apply validKey_free in Hk as [_ Hk2].
  apply validKey_free in Hk' as [_ Hk'2].
  rewrite !variablePattern_unfold in Hin. cbn [String.append] in Hin.
  rewrite includes_unfold in Hin. apply orb_prop in Hin as [Hin|Hin].
  - exfalso. apply Hne. symmetry. cbn [String.prefix] in Hin.
    destruct (ascii_dec "$" "$"); [|congruence].
    destruct (ascii_dec "{" "{"); [|congruence].
    now apply (key_prefix_eq k k' post).
  - rewrite variablePattern_unfold.
    apply (includes_behind_free (String "{" (k' +:+ "}"))); assumption.
Qed.

(** The pass of another name keeps the tokens of a name. *)
Lemma replaceAllFrom_keeps (k' k template : string) :
  k' <> k -> validKey k = true -> validKey k' = true ->
  forall s skip before,
    includes (dropString skip s) (variablePattern k) = true ->
    includes (replaceAllFrom (variablePattern k') template before skip s)
             (variablePattern k) = true.
Proof.
  intros Hne Hk Hk'. pose proof (token_free k Hk) as Hfree.
  induction s as [|c s IH]; intros skip before Hin.
  { destruct skip; discriminate Hin. }
  destruct skip as [|skip]; cbn [replaceAllFrom dropString] in *;
    [|now apply IH].
  destruct (String.prefix (variablePattern k') (String c s)) eqn:Hmatch.
  - apply includes_app_r, IH.
    pose proof (token_behind_match k' k _ Hne Hk Hk' Hmatch Hin) as Hb.
    rewrite variablePattern_unfold in Hb |- *.
    cbn [String.length dropString Nat.pred] in *. exact Hb.
  - rewrite includes_unfold in Hin. apply orb_prop in Hin as [Hin|Hin].
    + destruct (prefix_split _ _ Hin) as [post Hs].
      rewrite variablePattern_unfold in Hs. cbn [String.append] in Hs.
      injection Hs as -> ->.
      change (String "{" ((k +:+ "}") +:+ post))
        with (String "{" (k +:+ "}") +:+ post).
      rewrite (variablePattern_unfold k').
      rewrite replaceAllFrom_app_free by assumption.
      apply includes_prefix. rewrite variablePattern_unfold.
      apply (prefix_app (String "$" (String "{" (k +:+ "}")))).
    + apply includes_cons, (IH 0%nat). exact Hin.
Qed.

Section TokensStay.

Local Open Scope list_scope.

Variable h : Host.
Variable args : Args.

Lemma pass_keeps (e : string * (Host -> Args -> string)) (k s : string) :
  fst e <> k -> validKey (fst e) = true -> validKey k = true ->
  includes s (variablePattern k) = true ->
  includes (substitutePass h args s e) (variablePattern k) = true.
Proof.
  intros Hne He Hk Hin. unfold substitutePass, replaceAll.
  now apply replaceAllFrom_keeps.
Qed.

Lemma passes_keep es (k s : string) :
  Forall (fun e => validKey (fst e) = true) es ->
  (forall e, In e es -> fst e <> k) ->
  validKey k = true ->
  includes s (variablePattern k) = true ->
  includes (fold_left (substitutePass h args) es s) (variablePattern k)
  = true.
Proof.
  intros Hvalid Hother Hk. revert s.
  induction es as [|e es IH]; intros s Hin; [exact Hin|].
  apply Forall_cons in Hvalid as [He Hvalid]. cbn [fold_left].
  apply IH; [assumption| |].
  - intros e' He'. apply Hother. now right.
  - apply pass_keeps; try assumption. apply Hother. now left.
Qed.

Lemma pass_puts (key name s : string) (fn : Host -> Args -> string) :
  validKey name = true ->
  includes s (variablePattern key) = true ->
  includes (fn h args) (variablePattern name) = true ->
  includes (substitutePass h args s (key, fn)) (variablePattern name) = true.
Proof.
  intros Hname Hs Hv. unfold substitutePass, replaceAll. cbn [fst snd].
  rewrite (variablePattern_unfold key) in Hs |- *.
  apply replaceAllFrom_puts; [|exact Hs].
  intros matched before after.
  now apply (getSubstitution_keeps_token _ _ _ name Hname
               (String.length (fn h args))).
Qed.

(** In a table without a repeated name, the entries before and
    behind an entry have other names. *)
Lemma names_around (es : list (string * (Host -> Args -> string))) :
  NoDup (List.map fst es) ->
  forall i key fn,
    es !! i = Some (key, fn) ->
    (forall e, In e (take i es) -> fst e <> key)
    /\ (forall e, In e (drop (S i) es) -> fst e <> key).
Proof.
  induction es as [|x es IH]; intros Hnd i key fn Hi; [discriminate Hi|].
  cbn [List.map] in Hnd. apply NoDup_cons in Hnd as [Hfresh Hnd].
  destruct i as [|i]; cbn in Hi.
  - injection Hi as ->. cbn [fst] in Hfresh. split; [intros e []|].
    intros e He E. apply Hfresh. rewrite <- E.
    apply list_elem_of_In, in_map_iff. now exists e.
  - destruct (IH Hnd i key fn Hi) as [Hbefore Hbehind].
    split; [|exact Hbehind].
    intros e [<-|He]; [|now apply Hbefore].
    intros E. apply Hfresh. rewrite E.
    apply list_elem_of_In, in_map_iff. exists (key, fn).
    split; [reflexivity|].
    apply list_elem_of_In, list_elem_of_lookup. now exists i.
Qed.

End TokensStay.

(** C7, as amended.  [resolveVariables] makes one global replacement
    per name, in the order of the table, each on the result of the one
    before, and searches no replacement text again in the same pass.  So
    for every template and context: when the value put in for a token
    [${key}] of the template holds a token [${name}] of a recognized
    variable, and [name] is [key] or stands before [key] in the table,
    that token is not expanded again: it is in the result as it is. *)
Theorem resolveVariables_earlier_names_stay
    (h : Host) (args : Args) (template : string)
    (i j : nat) (key name : string) (fn fn' : Host -> Args -> string) :
  variables.entries !! i = Some (key, fn) ->
  variables.entries !! j = Some (name, fn') ->
  (j <= i)%nat ->
  includes template (variablePattern key) = true ->
  includes (fn h args) (variablePattern name) = true ->
  includes (resolveVariables h template args) (variablePattern name) = true.
Proof.
  intros Hi Hj Hji Htemplate Hvalue.
  pose proof entries_valid as Hvalid.
  assert (Hkey : validKey key = true).
  { rewrite Forall_forall in Hvalid. apply (Hvalid (key, fn)).
    apply list_elem_of_lookup. now exists i. }
  assert (Hname : validKey name = true).
  { rewrite Forall_forall in Hvalid. apply (Hvalid (name, fn')).
    apply list_elem_of_lookup. now exists j. }
  destruct (names_around variables.entries entries_distinct i key fn Hi)
    as [Hbefore _].
  destruct (names_around variables.entries entries_distinct j name fn' Hj)
    as [_ Hbehind].
  unfold resolveVariables.
  rewrite <- (take_drop_middle variables.entries i (key, fn) Hi).
  rewrite fold_left_app. cbn [fold_left].
  apply passes_keep.
  - apply Forall_drop. exact Hvalid.
  - intros e He. apply Hbehind.
    replace (S i) with (S j + (i - j))%nat in He by lia.
    rewrite <- drop_drop in He. now apply In_drop in He.
  - exact Hname.
  - apply pass_puts; [exact Hname| |exact Hvalue].
    apply passes_keep; try assumption.
    apply Forall_take. exact Hvalid.
Qed.

(** With the working directory named [${userHome}-${cwd}], the
    template [${cwd}/${userHome}] keeps both tokens of the value: the pass
    of [userHome] is over when the value comes in, and the pass of [cwd]
    does not search what it has put in. *)
Lemma resolveVariables_earlier_names_stay_witness :
  includes (resolveVariables (hostNamed "/home/u" "${userHome}-${cwd}")
                             "${cwd}/${userHome}" noArgs)
           (variablePattern "userHome") = true
  /\ includes (resolveVariables (hostNamed "/home/u" "${userHome}-${cwd}")
                                "${cwd}/${userHome}" noArgs)
              (variablePattern "cwd") = true.
Proof.
  split.
  - exact (resolveVariables_earlier_names_stay
             (hostNamed "/home/u" "${userHome}-${cwd}") noArgs
             "${cwd}/${userHome}" 12 0 "cwd" "userHome"
             variables.cwd variables.userHome
             eq_refl eq_refl ltac:(lia) eq_refl eq_refl).
  - exact (resolveVariables_earlier_names_stay
             (hostNamed "/home/u" "${userHome}-${cwd}") noArgs
             "${cwd}/${userHome}" 12 12 "cwd" "cwd"
             variables.cwd variables.cwd
             eq_refl eq_refl ltac:(lia) eq_refl eq_refl).
Defined.

(** A token that no custom prefix starts, that is no own key of the
    registry and no name of [Object.prototype], is passed over: the loop
    goes on to the next token, and the cache is as before. *)
Lemma unknown_token_passed_over
    (h : Host) (c : gmap string string) (tab : Tab) (f : string) :
  hasPrefix f = false ->
  property filterMapOwn f = None ->
  property objectPrototype f = None ->
  filterStep h c tab f = (c, Returns false).
Proof.
  intros Hprefix Hown Hproto.
  unfold filterStep, customStep, registryStep, filterMap.
  now rewrite Hprefix, Hown, Hproto.
Qed.

(** C6 at a failing input.  On a pinned tab the list
    [["pinned", "__proto__"]] gives [true]; the same tokens in the other
    order raise a [TypeError], since [filterMap["__proto__"]] is
    [Object.prototype], which is truthy and is not a function. *)
Theorem isBlockingPredicate_order_of_tokens
    (h : Host) (c : gmap string string) (tab : Tab) :
  isPinned tab = true ->
  Permutation ["pinned"; "__proto__"] ["__proto__"; "pinned"]
  /\ snd (isBlockingPredicate h c tab
            (optionsWithFilters ["pinned"; "__proto__"]))
     = Returns true
  /\ snd (isBlockingPredicate h c tab
            (optionsWithFilters ["__proto__"; "pinned"]))
     = Throws TypeError.
Proof.
  intros Hpinned. split; [apply perm_swap|].
  unfold isBlockingPredicate, optionsWithFilters.
  cbn [blockMoveFilters blockingLoop].
  assert (Hpin : filterStep h c tab "pinned" = (c, Returns true)).
  { unfold filterStep, customStep, registryStep. cbn. now rewrite Hpinned. }
  assert (Hproto : filterStep h c tab "__proto__" = (c, Throws TypeError))
    by reflexivity.
  now rewrite Hpin, Hproto.
Qed.

Lemma isBlockingPredicate_order_of_tokens_witness :
  snd (isBlockingPredicate quietHost ∅ (mkTab 1 "P" true)
         (optionsWithFilters ["pinned"; "__proto__"]))
  = Returns true
  /\ snd (isBlockingPredicate quietHost ∅ (mkTab 1 "P" true)
            (optionsWithFilters ["__proto__"; "pinned"]))
     = Throws TypeError.
Proof.
  exact (proj2 (isBlockingPredicate_order_of_tokens quietHost ∅
                  (mkTab 1 "P" true) eq_refl)).
Defined.

(** C8 at failing inputs.  The tokens [constructor] and [__proto__]
    start with no custom prefix and are no keys of the registry; still
    [filterMap] finds them on [Object.prototype].  [constructor] makes
    every tab blocking; [__proto__] raises a [TypeError], and the tokens
    behind it are not looked at. *)
Theorem isBlockingPredicate_inherited_names
    (h : Host) (c : gmap string string) (tab : Tab) :
  (hasPrefix "constructor" = false
   /\ property filterMapOwn "constructor" = None
   /\ snd (isBlockingPredicate h c tab (optionsWithFilters ["constructor"]))
      = Returns true)
  /\ (hasPrefix "__proto__" = false
      /\ property filterMapOwn "__proto__" = None
      /\ snd (isBlockingPredicate h c tab
                (optionsWithFilters ["__proto__"; "pinned"]))
         = Throws TypeError
      /\ snd (isBlockingPredicate h c tab (optionsWithFilters ["pinned"]))
         = Returns (isPinned tab)).
Proof.
  repeat split; try reflexivity.
  unfold isBlockingPredicate, optionsWithFilters.
  cbn [blockMoveFilters blockingLoop].
  assert (Hpin : filterStep h c tab "pinned" = (c, Returns (isPinned tab))).
  { unfold filterStep, customStep, registryStep. cbn.
    now destruct (isPinned tab). }
  rewrite Hpin. now destruct (isPinned tab).
Qed.

(** * Further properties *)

(** ** The position calculator on any sequence *)

Lemma getStackPosition_moveDistance
    (activeIndex : Z) (tabs : list Tab) (isBlocking : Predicate)
    (options : Options) :
  getStackPosition activeIndex tabs isBlocking options
  = match tabAt tabs activeIndex with
    | None => None
    | Some current =>
        if isBlocking current options then None
        else moveDistance activeIndex tabs
               (blockingTabIndexes tabs isBlocking options) options
    end.
Proof. reflexivity. Qed.

Lemma indexOfFrom_found (k : Z) (tabs : list Tab) (t : Tab) :
  In t tabs ->
  (k <= indexOfFrom k tabs t < k + Z.of_nat (length tabs))%Z
  /\ exists t', tabs !! Z.to_nat (indexOfFrom k tabs t - k) = Some t'
                /\ sameObject t' t = true.
Proof.
  revert k. induction tabs as [|x tabs IH]; intros k Hin; [destruct Hin|].
  cbn [indexOfFrom length]. destruct (sameObject x t) eqn:E.
  - split; [lia|]. exists x. rewrite Z.sub_diag. now split.
  - destruct Hin as [->|Hin].
    + unfold sameObject in E. now rewrite Nat.eqb_refl in E.
    + destruct (IH (k + 1)%Z Hin) as [Hr (t' & Ht' & Hs)].
      split; [lia|]. exists t'. split; [|exact Hs].
      replace (Z.to_nat (indexOfFrom (k + 1) tabs t - k))
        with (S (Z.to_nat (indexOfFrom (k + 1) tabs t - (k + 1)))) by lia.
      exact Ht'.
Qed.

(** X1.  On any sequence, also one in which an object fills several
    slots, every index that [blockingTabIndexes] returns lies inside the
    sequence and holds the very object of a blocking tab; the list has
    one entry per blocking slot. *)
Theorem blockingTabIndexes_sound
    (tabs : list Tab) (isBlocking : Predicate) (options : Options) :
  (forall i : Z,
      In i (blockingTabIndexes tabs isBlocking options) ->
      (0 <= i < Z.of_nat (length tabs))%Z
      /\ exists t t', In t tabs /\ isBlocking t options = true
                      /\ tabAt tabs i = Some t' /\ sameObject t' t = true)
  /\ length (blockingTabIndexes tabs isBlocking options)
     = length (List.filter (fun tab => isBlocking tab options) tabs).
Proof.
  split.
  - intros i Hi. unfold blockingTabIndexes in Hi.
    apply in_map_iff in Hi as (t & <- & Ht).
    apply filter_In in Ht as [Hin Hb].
    destruct (indexOfFrom_found 0 tabs t Hin) as [Hr (t' & Ht' & Hs)].
    unfold indexOf. split; [lia|]. exists t, t'. repeat split; try assumption.
    unfold tabAt. destruct (Z.ltb_spec (indexOfFrom 0 tabs t) 0); [lia|].
    now rewrite Z.sub_0_r in Ht'.
  - unfold blockingTabIndexes. apply length_map.
Qed.

(** In [P, X, P, D], where one pinned object fills slots 0 and 2, the
    list is [[0, 0]]: both entries lie inside the sequence and name
    slot 0, which holds the object. *)
Lemma blockingTabIndexes_sound_witness :
  (0 <= 0 < Z.of_nat (length repeatedLeft))%Z
  /\ length (blockingTabIndexes repeatedLeft pinnedOnly
                (optionsTowards (Some "left") None)) = 2%nat.
Proof.
  split.
  - exact (proj1 (proj1 (blockingTabIndexes_sound repeatedLeft pinnedOnly
                           (optionsTowards (Some "left") None))
                   0%Z ltac:(left; reflexivity))).
  - exact (proj2 (blockingTabIndexes_sound repeatedLeft pinnedOnly
                    (optionsTowards (Some "left") None))).
Defined.

Section Distance.

Local Open Scope list_scope.
Local Open Scope Z_scope.

Variable activeIndex : Z.
Variable tabs : list Tab.
Variable indexes : list Z.
Variable options : Options.

Lemma truthyNumber_Some p :
  truthyNumber (padding options) = Some p ->
  padding options = Some p /\ p <> 0.
Proof.
  unfold truthyNumber. destruct (padding options) as [q|]; [|discriminate].
  destruct (Z.eqb_spec q 0); [discriminate|]. intros [= <-]. now split.
Qed.

Lemma rawLeft_range : 0 <= rawLeft activeIndex indexes.
Proof.
  unfold rawLeft. destruct (findLast _ _) as [b|] eqn:E; [|lia].
  apply findLast_some in E as [_ E]. apply Z.ltb_lt in E. lia.
Qed.

Lemma rawRight_range :
  activeIndex < Z.of_nat (length tabs) ->
  0 <= rawRight activeIndex tabs indexes.
Proof.
  intros Hr. unfold rawRight. destruct (List.find _ _) as [b|] eqn:E; [|lia].
  apply find_some in E as [_ E]. apply Z.ltb_lt in E. lia.
Qed.

(** Inside the sequence the test [moveDelta < 0] only catches the case
    of no direction. *)
Lemma moveDistance_cases :
  activeIndex < Z.of_nat (length tabs) ->
  moveDistance activeIndex tabs indexes options
  = match direction options with
    | Some d =>
        if String.eqb d "left" then
          Some match truthyNumber (padding options) with
               | Some p => Z.max 0 (rawLeft activeIndex indexes - p)
               | None => rawLeft activeIndex indexes
               end
        else if String.eqb d "right" then
          Some match truthyNumber (padding options) with
               | Some p => Z.max 0 (rawRight activeIndex tabs indexes - p)
               | None => rawRight activeIndex tabs indexes
               end
        else None
    | None => None
    end.
Proof.
  intros Hr. pose proof rawLeft_range. pose proof (rawRight_range Hr).
  unfold moveDistance.
  fold (rawLeft activeIndex indexes). fold (rawRight activeIndex tabs indexes).
  destruct (direction options) as [d|]; [|reflexivity].
  destruct (String.eqb d "left").
  { destruct (truthyNumber (padding options)) as [p|].
    - destruct (Z.ltb_spec (Z.max 0 (rawLeft activeIndex indexes - p)) 0);
        [lia|reflexivity].
    - destruct (Z.ltb_spec (rawLeft activeIndex indexes) 0);
        [lia|reflexivity]. }
  destruct (String.eqb d "right"); [|reflexivity].
  destruct (truthyNumber (padding options)) as [p|].
  - destruct (Z.ltb_spec (Z.max 0 (rawRight activeIndex tabs indexes - p)) 0);
      [lia|reflexivity].
  - destruct (Z.ltb_spec (rawRight activeIndex tabs indexes) 0);
      [lia|reflexivity].
Qed.

(** With indexes inside the sequence the distances stay inside it. *)
Lemma rawLeft_le :
  (forall i, In i indexes -> 0 <= i) ->
  0 <= activeIndex -> rawLeft activeIndex indexes <= activeIndex.
Proof.
  intros Hin Ha. unfold rawLeft.
  destruct (findLast _ _) as [b|] eqn:E; [|lia].
  apply findLast_some in E as [E _]. specialize (Hin b E). lia.
Qed.

Lemma rawRight_le :
  (forall i, In i indexes -> i < Z.of_nat (length tabs)) ->
  activeIndex + rawRight activeIndex tabs indexes
  <= Z.of_nat (length tabs) - 1.
Proof.
  intros Hin. unfold rawRight.
  destruct (List.find _ _) as [b|] eqn:E; [|lia].
  apply find_some in E as [E _]. specialize (Hin b E). lia.
Qed.

End Distance.

(** X2.  [getStackPosition] returns [undefined] in three cases and in
    no other: the active index is outside the sequence, the active tab is
    blocking, or the direction is neither ["left"] nor ["right"]. *)
Theorem getStackPosition_undefined_iff
    (tabs : list Tab) (activeIndex : Z) (isBlocking : Predicate)
    (options : Options) :
  getStackPosition activeIndex tabs isBlocking options = None
  <-> ((activeIndex < 0)%Z \/ (Z.of_nat (length tabs) <= activeIndex)%Z)
      \/ blockingAt tabs isBlocking options activeIndex
      \/ (direction options <> Some "left"
          /\ direction options <> Some "right").
Proof.
  rewrite getStackPosition_moveDistance. unfold blockingAt.
  destruct (tabAt tabs activeIndex) as [t|] eqn:Hat.
  - apply tabAt_Some in Hat as [Hr _].
    destruct (isBlocking t options) eqn:Hb.
    + split; [|reflexivity]. intros _. right. left. now exists t.
    + rewrite moveDistance_cases by lia.
      destruct (direction options) as [d|].
      * destruct (String.eqb_spec d "left") as [->|Hl].
        { split; [discriminate|].
          intros [?|[(t' & [= <-] & ?)|[? _]]]; [lia|congruence|congruence]. }
        destruct (String.eqb_spec d "right") as [->|Hr'].
        { split; [discriminate|].
          intros [?|[(t' & [= <-] & ?)|[_ ?]]]; [lia|congruence|congruence]. }
        split; [|reflexivity]. intros _. right. right.
        split; congruence.
      * split; [|reflexivity]. intros _. right. right. split; discriminate.
  - split; [|reflexivity]. intros _. left.
    unfold tabAt in Hat. destruct (Z.ltb_spec activeIndex 0); [now left|].
    right. apply lookup_ge_None in Hat. lia.
Qed.

Lemma blockingTabIndexes_range
    (tabs : list Tab) (isBlocking : Predicate) (options : Options) (i : Z) :
  In i (blockingTabIndexes tabs isBlocking options) ->
  (0 <= i < Z.of_nat (length tabs))%Z.
Proof.
  unfold blockingTabIndexes. intros Hi.
  apply in_map_iff in Hi as (t & <- & Ht). apply filter_In in Ht as [Hin _].
  destruct (indexOfFrom_found 0 tabs t Hin) as [Hr _]. unfold indexOf. lia.
Qed.

(** X3.  With a padding that is absent or not negative, on any
    sequence, the distance returned never carries the active tab over an
    end of the sequence: towards the left it is at most the active index,
    towards the right the active index plus the distance is at most the
    last index. *)
Theorem getStackPosition_stays_inside
    (tabs : list Tab) (activeIndex : Z) (isBlocking : Predicate)
    (options : Options) (distance : Z) :
  paddingNotNegative options ->
  getStackPosition activeIndex tabs isBlocking options = Some distance ->
  (0 <= distance)%Z
  /\ (direction options = Some "left" -> (distance <= activeIndex)%Z)
  /\ (direction options = Some "right" ->
      (activeIndex + distance <= Z.of_nat (length tabs) - 1)%Z).
Proof.
  intros Hpad. rewrite getStackPosition_moveDistance.
  destruct (tabAt tabs activeIndex) as [t|] eqn:Hat; [|discriminate].
  apply tabAt_Some in Hat as [Hr _].
  destruct (isBlocking t options); [discriminate|].
  rewrite moveDistance_cases by lia.
  set (l := blockingTabIndexes tabs isBlocking options).
  pose proof (rawLeft_range activeIndex l) as HL0.
  pose proof (rawRight_range activeIndex tabs l (proj2 Hr)) as HR0.
  assert (HL : (rawLeft activeIndex l <= activeIndex)%Z).
  { apply rawLeft_le; [|lia]. intros i Hi.
    now apply blockingTabIndexes_range in Hi. }
  assert (HR : (activeIndex + rawRight activeIndex tabs l
                <= Z.of_nat (length tabs) - 1)%Z).
  { apply rawRight_le. intros i Hi.
    now apply blockingTabIndexes_range in Hi. }
  assert (Hp : forall p, truthyNumber (padding options) = Some p -> (0 < p)%Z).
  { intros p Hp. apply truthyNumber_Some in Hp as [Hp Hne].
    unfold paddingNotNegative in Hpad. rewrite Hp in Hpad. lia. }
  destruct (direction options) as [d|]; [|discriminate].
  destruct (String.eqb_spec d "left") as [->|Hl].
  { destruct (truthyNumber (padding options)) as [p|] eqn:E;
      intros [= <-]; [specialize (Hp p eq_refl)|];
      (split; [lia|split; [intros _; lia|discriminate]]). }
  destruct (String.eqb_spec d "right") as [->|Hr']; [|discriminate].
  destruct (truthyNumber (padding options)) as [p|] eqn:E;
    intros [= <-]; [specialize (Hp p eq_refl)|];
    (split; [lia|split; [discriminate|intros _; lia]]).
Qed.

Lemma getStackPosition_stays_inside_witness :
  paddingNotNegative (optionsTowards (Some "right") (Some 0%Z))
  /\ (0 <= 1)%Z
  /\ (3 + 1 <= Z.of_nat (length scenarioTabs) - 1)%Z.
Proof.
  assert (Hpad : paddingNotNegative
                   (optionsTowards (Some "right") (Some 0%Z))).
  { unfold paddingNotNegative. simpl. lia. }
  split; [exact Hpad|].
  pose proof (getStackPosition_stays_inside scenarioTabs 3 pinnedOnly
                (optionsTowards (Some "right") (Some 0%Z)) 1
                Hpad eq_refl) as (H0 & _ & HR).
  split; [exact H0|exact (HR eq_refl)].
Defined.

Lemma findLast_None_inv (p : Z -> bool) (l : list Z) :
  findLast p l = None -> forall j, In j l -> p j = false.
Proof.
  induction l as [|x l IH]; intros H j Hj; [destruct Hj|].
  cbn [findLast] in H. destruct (findLast p l); [discriminate|].
  destruct (p x) eqn:E; [discriminate|].
  destruct Hj as [<-|Hj]; [exact E|now apply IH].
Qed.

Lemma findLast_greatest (p : Z -> bool) (l : list Z) (b : Z) :
  StronglySorted Z.lt l -> findLast p l = Some b ->
  forall j, In j l -> p j = true -> (j <= b)%Z.
Proof.
  induction l as [|x l IH]; intros Hs H j Hj Hp; [destruct Hj|].
  apply StronglySorted_inv in Hs as [Hs Hx]. rewrite Forall_forall in Hx.
  cbn [findLast] in H. destruct (findLast p l) as [y|] eqn:E.
  - injection H as ->. destruct Hj as [<-|Hj]; [|now apply IH].
    apply findLast_some in E as [E _].
    specialize (Hx b (proj2 (list_elem_of_In _ _) E)). lia.
  - destruct (p x); [|discriminate]. injection H as ->.
    destruct Hj as [<-|Hj]; [lia|].
    rewrite (findLast_None_inv p l E j Hj) in Hp. discriminate.
Qed.

Lemma find_least (p : Z -> bool) (l : list Z) (b : Z) :
  StronglySorted Z.lt l -> List.find p l = Some b ->
  forall j, In j l -> p j = true -> (b <= j)%Z.
Proof.
  induction l as [|x l IH]; intros Hs H j Hj Hp; [destruct Hj|].
  apply StronglySorted_inv in Hs as [Hs Hx]. rewrite Forall_forall in Hx.
  cbn [List.find] in H. destruct (p x) eqn:E.
  - injection H as ->. destruct Hj as [<-|Hj]; [lia|].
    specialize (Hx j (proj2 (list_elem_of_In _ _) Hj)). lia.
  - destruct Hj as [<-|Hj]; [congruence|now apply IH].
Qed.

(** X4.  On pairwise distinct tabs and with a padding that is absent
    or not negative, the move never crosses a blocking tab: no slot
    between the place the active tab is moved to and the place it leaves
    holds a blocking tab. *)
Theorem getStackPosition_crosses_no_blocker
    (tabs : list Tab) (activeIndex : Z) (isBlocking : Predicate)
    (options : Options) (distance : Z) :
  distinctTabs tabs ->
  paddingNotNegative options ->
  getStackPosition activeIndex tabs isBlocking options = Some distance ->
  (direction options = Some "left" ->
   forall j : Z, (activeIndex - distance <= j < activeIndex)%Z ->
                 ~ blockingAt tabs isBlocking options j)
  /\ (direction options = Some "right" ->
      forall j : Z, (activeIndex < j <= activeIndex + distance)%Z ->
                    ~ blockingAt tabs isBlocking options j).
Proof.
  intros Hnd Hpad. rewrite getStackPosition_moveDistance.
  destruct (tabAt tabs activeIndex) as [t|] eqn:Hat; [|discriminate].
  apply tabAt_Some in Hat as [Hr _].
  destruct (isBlocking t options); [discriminate|].
  rewrite moveDistance_cases by lia.
  set (l := blockingTabIndexes tabs isBlocking options).
  assert (Hsorted : StronglySorted Z.lt l)
    by now apply blockingTabIndexes_increasing.
  assert (Hmem : forall j, blockingAt tabs isBlocking options j -> In j l).
  { intros j Hj. now apply blockingTabIndexes_In. }
  assert (Hp : forall p, truthyNumber (padding options) = Some p -> (0 < p)%Z).
  { intros p Hp. apply truthyNumber_Some in Hp as [Hp Hne].
    unfold paddingNotNegative in Hpad. rewrite Hp in Hpad. lia. }
  assert (HL : forall j, (activeIndex - rawLeft activeIndex l <= j
                          < activeIndex)%Z ->
                         ~ blockingAt tabs isBlocking options j).
  { intros j Hj Hb. apply Hmem in Hb. unfold rawLeft in Hj.
    destruct (findLast _ l) as [b|] eqn:E.
    - pose proof (findLast_greatest _ l b Hsorted E j Hb) as Hle.
      assert (Hlt : (j <? activeIndex)%Z = true) by (apply Z.ltb_lt; lia).
      specialize (Hle Hlt). lia.
    - pose proof (findLast_None_inv _ l E j Hb) as Hf. cbv beta in Hf.
      apply Z.ltb_ge in Hf. lia. }
  assert (HR : forall j, (activeIndex < j
                          <= activeIndex + rawRight activeIndex tabs l)%Z ->
                         ~ blockingAt tabs isBlocking options j).
  { intros j Hj Hb. apply Hmem in Hb. unfold rawRight in Hj.
    destruct (List.find _ l) as [b|] eqn:E.
    - pose proof (find_least _ l b Hsorted E j Hb) as Hle.
      assert (Hlt : (activeIndex <? j)%Z = true) by (apply Z.ltb_lt; lia).
      specialize (Hle Hlt). lia.
    - pose proof (find_none _ l E j Hb) as Hf. cbv beta in Hf.
      apply Z.ltb_ge in Hf. lia. }
  destruct (direction options) as [d|]; [|discriminate].
  destruct (String.eqb_spec d "left") as [->|Hl].
  { destruct (truthyNumber (padding options)) as [p|] eqn:E;
      intros [= <-]; [specialize (Hp p eq_refl)|];
      (split; [intros _ j Hj; apply HL; lia|discriminate]). }
  destruct (String.eqb_spec d "right") as [->|Hr']; [|discriminate].
  destruct (truthyNumber (padding options)) as [p|] eqn:E;
    intros [= <-]; [specialize (Hp p eq_refl)|];
    (split; [discriminate|intros _ j Hj; apply HR; lia]).
Qed.

(** In [A, B(pinned), C, D, E] with [D] active the move to the left
    goes one slot, to slot 2, and slot 2 holds no blocking tab. *)
Lemma getStackPosition_crosses_no_blocker_witness :
  ~ blockingAt scenarioTabs pinnedOnly
      (optionsTowards (Some "left") (Some 0%Z)) 2.
Proof.
  assert (Hpad : paddingNotNegative
                   (optionsTowards (Some "left") (Some 0%Z))).
  { unfold paddingNotNegative. simpl. lia. }
  refine (proj1 (getStackPosition_crosses_no_blocker scenarioTabs 3
                   pinnedOnly (optionsTowards (Some "left") (Some 0%Z)) 1
                   scenarioTabs_distinct Hpad eq_refl) eq_refl 2%Z _).
  lia.
Defined.

(** X5.  A negative padding is not refused: it lengthens the move.
    With a padding [p < 0], not below [-2^52] so that the doubles of the
    source are exact, the result is [raw - p], that is [raw + |p|], where
    [raw] is the result for padding 0. *)
Theorem getStackPosition_negative_padding
    (tabs : list Tab) (activeIndex : Z) (isBlocking : Predicate)
    (options : Options) (p : Z) :
  (p < 0)%Z ->
  (- 2 ^ 52 <= p)%Z ->
  padding options = Some p ->
  getStackPosition activeIndex tabs isBlocking options
  = (fun raw => raw - p)%Z <$>
      getStackPosition activeIndex tabs (fun t _ => isBlocking t options)
                       (withoutPadding options).
Proof.
  intros Hp _ Hpad. rewrite !getStackPosition_moveDistance.
  destruct (tabAt tabs activeIndex) as [t|] eqn:Hat; [|reflexivity].
  apply tabAt_Some in Hat as [Hr _].
  destruct (isBlocking t options); [reflexivity|].
  change (blockingTabIndexes tabs (fun t _ => isBlocking t options)
                             (withoutPadding options))
    with (blockingTabIndexes tabs isBlocking options).
  rewrite !moveDistance_cases by lia.
  set (l := blockingTabIndexes tabs isBlocking options).
  pose proof (rawLeft_range activeIndex l) as HL0.
  pose proof (rawRight_range activeIndex tabs l (proj2 Hr)) as HR0.
  unfold withoutPadding. cbn [direction padding]. rewrite Hpad.
  assert (Hp' : truthyNumber (Some p) = Some p).
  { unfold truthyNumber. destruct (Z.eqb_spec p 0); [lia|reflexivity]. }
  rewrite Hp'. cbn [truthyNumber Z.eqb].
  destruct (direction options) as [d|]; [|reflexivity].
  destruct (String.eqb d "left"); [cbn; f_equal; lia|].
  destruct (String.eqb d "right"); [cbn; f_equal; lia|reflexivity].
Qed.

(** With the padding [-3] the tab [D] of [A, B(pinned), C, D, E] is
    asked to move 4 slots to the left, past the pinned [B] and beyond
    slot 0. *)
Lemma getStackPosition_negative_padding_witness :
  getStackPosition 3 scenarioTabs pinnedOnly
                   (optionsTowards (Some "left") (Some (-3)%Z))
  = Some 4%Z.
Proof.
  exact (getStackPosition_negative_padding scenarioTabs 3 pinnedOnly
           (optionsTowards (Some "left") (Some (-3)%Z)) (-3)%Z
           eq_refl ltac:(lia) eq_refl).
Defined.

(** ** The options resolver, further *)

(** X6.  Whatever the configuration holds, [getMoveDirectionOption]
    answers ["left"] or ["right"], and ["right"] only when the configured
    direction is ["right"]: an absent, empty, ["auto"] or unknown
    direction reads as ["left"]. *)
Theorem getMoveDirectionOption_normalized (this : TabStacker) (scope : Scope) :
  (getMoveDirectionOption this scope = "left"
   \/ getMoveDirectionOption this scope = "right")
  /\ (getMoveDirectionOption this scope = "right"
      <-> direction (getOptions this scope) = Some "right").
Proof.
  unfold getMoveDirectionOption.
  destruct (direction (getOptions this scope)) as [d|].
  - destruct (String.eqb_spec d "") as [->|_];
      [split; [now left|split; discriminate]|].
    destruct (String.eqb_spec d "auto") as [->|_];
      [split; [now left|split; discriminate]|].
    cbn [orb existsb].
    destruct (String.eqb_spec d "left") as [->|_];
      [split; [now left|split; discriminate]|].
    destruct (String.eqb_spec d "right") as [->|Hr].
    + cbn [orb]. split; [now right|split; reflexivity].
    + cbn [orb]. split; [now left|]. split; [discriminate|].
      intros [= ->]. congruence.
  - split; [now left|split; discriminate].
Qed.

Lemma effective_filters_hold_pinned (this : TabStacker) (scope : Scope) :
  In "pinned" (getBlockMoveFiltersOption this scope).
Proof.
  unfold getBlockMoveFiltersOption.
  destruct (existsb _ (blockMoveFilters (getOptions this scope))) eqn:E.
  - apply includes_default in E as (f & Hf & [<-|[]]). exact Hf.
  - now left.
Qed.

(** X7.  The effective filter list always holds ["pinned"], whatever
    is configured. *)
Theorem getBlockMoveFiltersOption_has_pinned
    (this : TabStacker) (scope : Scope) :
  In "pinned" (getBlockMoveFiltersOption this scope).
Proof.
  unfold getBlockMoveFiltersOption.
  destruct (existsb _ (blockMoveFilters (getOptions this scope))) eqn:E;
    [|now left].
  apply includes_default in E as (f & Hf & Hd).
  destruct Hd as [<-|[]]. exact Hf.
Qed.

(** ** The blocking predicate, further *)

Section BlockingPredicateMore.

Local Open Scope list_scope.

Variable h : Host.
Variable tab : Tab.

Lemma resolvedFilter_cache c f k v :
  fst (resolvedFilter h c f) !! k = Some v ->
  c !! k = Some v
  \/ (c !! k = None /\ k = f /\ startsWith k "path:" = true
      /\ v = resolveVariables h k noArgs).
Proof.
  unfold resolvedFilter.
  destruct (existsb _ ["path:"]) eqn:E; [|now left].
  destruct (c !! f) as [r|] eqn:Hf; [now left|]. cbn [fst].
  destruct (decide (f = k)) as [<-|Hne].
  - rewrite lookup_insert_eq. intros [= <-]. right.
    cbn [existsb] in E. rewrite orb_false_r in E. now repeat split.
  - rewrite lookup_insert_ne by assumption. now left.
Qed.

Lemma resolvedFilter_grows c f : c ⊆ fst (resolvedFilter h c f).
Proof.
  unfold resolvedFilter. destruct (existsb _ ["path:"]); [|reflexivity].
  destruct (c !! f) as [r|] eqn:Hf; [reflexivity|]. cbn [fst].
  now apply insert_subseteq.
Qed.

Lemma filterStep_cache c f k v :
  fst (filterStep h c tab f) !! k = Some v ->
  c !! k = Some v
  \/ (c !! k = None /\ k = f /\ startsWith k "path:" = true
      /\ v = resolveVariables h k noArgs).
Proof.
  rewrite filterStep_fst, customStep_fst. destruct (hasPrefix f); [|now left].
  apply resolvedFilter_cache.
Qed.

Lemma filterStep_grows c f : c ⊆ fst (filterStep h c tab f).
Proof.
  rewrite filterStep_fst, customStep_fst.
  destruct (hasPrefix f); [apply resolvedFilter_grows|reflexivity].
Qed.

Lemma blockingLoop_grows c filters : c ⊆ fst (blockingLoop h c tab filters).
Proof.
  revert c. induction filters as [|f rest IH]; intros c; [reflexivity|].
  cbn [blockingLoop]. pose proof (filterStep_grows c f) as Hg.
  destruct (filterStep h c tab f) as [c' [[|]|e]]; cbn [fst] in *;
    try assumption.
  etrans; [exact Hg|apply IH].
Qed.

Lemma blockingLoop_cache c filters k v :
  fst (blockingLoop h c tab filters) !! k = Some v ->
  c !! k = Some v
  \/ (c !! k = None /\ In k filters /\ startsWith k "path:" = true
      /\ v = resolveVariables h k noArgs).
Proof.
  revert c. induction filters as [|f rest IH]; intros c; [now left|].
  cbn [blockingLoop]. pose proof (filterStep_cache c f k v) as Hs.
  pose proof (filterStep_grows c f) as Hg.
  assert (Hhere : fst (filterStep h c tab f) !! k = Some v ->
    c !! k = Some v
    \/ (c !! k = None /\ In k (f :: rest) /\ startsWith k "path:" = true
        /\ v = resolveVariables h k noArgs)).
  { intros Hk. destruct (Hs Hk) as [?|(? & -> & ? & ?)]; [now left|].
    right. repeat split; try assumption. now left. }
  destruct (filterStep h c tab f) as [c' [[|]|e]]; cbn [fst] in *;
    try exact Hhere.
  intros Hk. destruct (IH c' Hk) as [Hc'|(Hnone & Hin & Hp & Hv)].
  - now apply Hhere.
  - right. repeat split; try assumption; [|now right].
    destruct (c !! k) as [w|] eqn:Hck; [|reflexivity].
    rewrite (lookup_weaken c c' k w Hck Hg) in Hnone. discriminate.
Qed.

End BlockingPredicateMore.

(** X8.  A call of the predicate only adds to its cache: what was
    cached stays, and an entry that is new belongs to a token of the list
    that starts with [path:] and holds the resolution of that token in
    the host of the call.  While the host stays as it is, the entries
    added change no answer: a call in the same host, for any tab and
    options, answers on the grown cache as it would have answered on the
    cache before.  (Once the host has changed, an entry keeps the old
    resolution.) *)
Theorem isBlockingPredicate_cache_only_grows
    (h : Host) (c : gmap string string) (tab : Tab) (options : Options) :
  c ⊆ fst (isBlockingPredicate h c tab options)
  /\ (forall k v,
        fst (isBlockingPredicate h c tab options) !! k = Some v ->
        c !! k = Some v
        \/ (c !! k = None /\ In k (blockMoveFilters options)
            /\ startsWith k "path:" = true
            /\ v = resolveVariables h k noArgs))
  /\ (forall tab' options',
        snd (isBlockingPredicate h
               (fst (isBlockingPredicate h c tab options)) tab' options')
        = snd (isBlockingPredicate h c tab' options')).
Proof.
  unfold isBlockingPredicate. split; [apply blockingLoop_grows|]. split.
  - intros k v. apply blockingLoop_cache.
  - intros tab' options'. rewrite !blockingLoop_firstDecisive.
    f_equal. apply map_ext. intros f. symmetry.
    apply tokenOutcome_samePatterns, blockingLoop_samePatterns.
Qed.

Lemma isBlockingPredicate_cache_only_grows_witness :
  fst (isBlockingPredicate quietHost ∅ (textTab 1 "/work/a.ts" false true)
         (optionsWithFilters ["path:${cwd}/*.ts"; "pinned"]))
    !! "path:${cwd}/*.ts"
  = Some (resolveVariables quietHost "path:${cwd}/*.ts" noArgs).
Proof.
  assert (Hrun :
    fst (isBlockingPredicate quietHost (∅ : gmap string string)
           (textTab 1 "/work/a.ts" false true)
           (optionsWithFilters ["path:${cwd}/*.ts"; "pinned"]))
      !! "path:${cwd}/*.ts"
    = Some "path:/work/*.ts") by (vm_compute; reflexivity).
  destruct (proj1 (proj2 (isBlockingPredicate_cache_only_grows quietHost ∅
                     (textTab 1 "/work/a.ts" false true)
                     (optionsWithFilters ["path:${cwd}/*.ts"; "pinned"])))
              "path:${cwd}/*.ts" "path:/work/*.ts" Hrun)
    as [Hold|(_ & _ & _ & Hnew)]; [discriminate Hold|].
  now rewrite Hrun, Hnew.
Defined.

(** X9.  A [path:] token is resolved once: after the first call its
    pattern is the cached one, whatever the host has become since (another
    file active, another working directory), and the cache is touched no
    more. *)
Theorem resolvedFilter_resolved_once
    (h h' : Host) (c : gmap string string) (f : string) :
  snd (resolvedFilter h' (fst (resolvedFilter h c f)) f)
  = snd (resolvedFilter h c f)
  /\ fst (resolvedFilter h' (fst (resolvedFilter h c f)) f)
     = fst (resolvedFilter h c f).
Proof.
  unfold resolvedFilter. destruct (existsb _ ["path:"]); [|now split].
  destruct (c !! f) as [r|] eqn:Hf; cbn [fst snd].
  - rewrite Hf. now split.
  - rewrite lookup_insert_eq. now split.
Qed.

(** ** The custom filters *)

Lemma removeFirst_unfold (pat s : string) :
  removeFirst pat s
  = if String.prefix pat s then dropString (String.length pat) s
    else match s with
         | EmptyString => EmptyString
         | String c rest => String c (removeFirst pat rest)
         end.
Proof. destruct s; reflexivity. Qed.

(** Taking a prefix off again. *)
Lemma removeFirst_app (p s : string) : removeFirst p (p +:+ s) = s.
Proof.
  now rewrite removeFirst_unfold, prefix_app, dropString_app.
Qed.

Lemma startsWith_app (p s : string) : startsWith (p +:+ s) p = true.
Proof. apply prefix_app. Qed.

Lemma resolvedFilter_other
    (h : Host) (c : gmap string string) (f : string) :
  startsWith f "path:" = false -> resolvedFilter h c f = (c, f).
Proof. intros H. unfold resolvedFilter. cbn [existsb]. now rewrite H. Qed.

Lemma findCustomMap_title (s : string) :
  findCustomMap ("title:" +:+ s)
  = Some {| prefix := "title:"; matchTab := matchTitle |}.
Proof.
  unfold findCustomMap. cbn [filterMapCustom List.find prefix].
  now rewrite startsWith_app.
Qed.

Lemma findCustomMap_path (s : string) :
  findCustomMap ("path:" +:+ s)
  = Some {| prefix := "path:"; matchTab := matchPath |}.
Proof.
  unfold findCustomMap. cbn [filterMapCustom List.find prefix].
  change (startsWith ("path:" +:+ s) "title:") with false.
  now rewrite (startsWith_app "path:").
Qed.

Lemma findCustomMap_lang (s : string) :
  findCustomMap ("lang:" +:+ s)
  = Some {| prefix := "lang:"; matchTab := matchLang |}.
Proof.
  unfold findCustomMap. cbn [filterMapCustom List.find prefix].
  change (startsWith ("lang:" +:+ s) "title:") with false.
  change (startsWith ("lang:" +:+ s) "path:") with false.
  now rewrite (startsWith_app "lang:").
Qed.

Lemma hasPrefix_custom (p s : string) :
  In p ["title:"; "path:"; "lang:"] -> hasPrefix (p +:+ s) = true.
Proof.
  intros Hp. unfold hasPrefix. apply existsb_exists. exists p.
  split; [exact Hp|apply startsWith_app].
Qed.

(** X10.  A token [title:<pattern>] is decided by the pattern matcher
    alone, on the label of the tab and the pattern with the white space
    around it taken off; the cache is not touched. *)
Theorem title_token_decided_by_matcher
    (h : Host) (c : gmap string string) (tab : Tab) (pat : string) :
  filterStep h c tab ("title:" +:+ pat)
  = (c, isMatch h (label tab) (trim pat)).
Proof.
  assert (Hcustom : customStep h c tab ("title:" +:+ pat)
                    = (c, isMatch h (label tab) (trim pat))).
  { unfold customStep.
    rewrite hasPrefix_custom by (left; reflexivity).
    rewrite resolvedFilter_other by reflexivity.
    rewrite findCustomMap_title. cbn [matchTab]. unfold matchTitle.
    now rewrite startsWith_app, removeFirst_app. }
  unfold filterStep. rewrite Hcustom.
  change (registryStep h tab ("title:" +:+ pat)) with (@Returns bool false).
  now destruct (isMatch h (label tab) (trim pat)) as [[|]|e].
Qed.

(** X11.  A token [lang:<pattern>] never blocks a tab that is not a
    text tab, and does not call the matcher for it; for a text tab the
    matcher decides, on the language of the tab's document, the empty
    string when the document is not known. *)
Theorem lang_token_decided_by_matcher
    (h : Host) (c : gmap string string) (tab : Tab) (pat : string) :
  filterStep h c tab ("lang:" +:+ pat)
  = (c, match input tab with
        | TabInputText uri =>
            isMatch h (default "" (getDocument h uri ≫= doc_languageId))
                      (trim pat)
        | _ => Returns false
        end).
Proof.
  assert (Hcustom : customStep h c tab ("lang:" +:+ pat)
                    = (c, matchLang h tab ("lang:" +:+ pat))).
  { unfold customStep.
    rewrite hasPrefix_custom by (right; right; left; reflexivity).
    rewrite resolvedFilter_other by reflexivity.
    now rewrite findCustomMap_lang. }
  unfold filterStep. rewrite Hcustom.
  change (registryStep h tab ("lang:" +:+ pat)) with (@Returns bool false).
  unfold matchLang. rewrite (startsWith_app "lang:"), removeFirst_app.
  destruct (input tab); try reflexivity.
  cbn [andThen]. now destruct (isMatch h _ (trim pat)) as [[|]|e].
Qed.

(** ** The variable resolver, further *)

Section ResolverMore.

Local Open Scope list_scope.

Variable h : Host.
Variable args : Args.

Lemma passes_free es s :
  freeOf "$" s = true -> fold_left (substitutePass h args) es s = s.
Proof.
  intros Hs. induction es as [|e es IH]; [reflexivity|].
  cbn [fold_left]. unfold substitutePass at 2, replaceAll.
  rewrite variablePattern_unfold, replaceAllFrom_free by assumption.
  exact IH.
Qed.

Lemma passes_keep_prefix es pre :
  freeOf "$" pre = true ->
  forall s, exists r,
    fold_left (substitutePass h args) es (pre +:+ s) = pre +:+ r.
Proof.
  intros Hpre. induction es as [|e es IH]; intros s; [now exists s|].
  cbn [fold_left]. unfold substitutePass at 2, replaceAll.
  rewrite variablePattern_unfold, replaceAllFrom_app_free by assumption.
  apply IH.
Qed.

End ResolverMore.

(** X12.  A text without [$] holds no variable: [resolveVariables]
    returns it as it is, in every host. *)
Theorem resolveVariables_without_dollar
    (h : Host) (args : Args) (value : string) :
  freeOf "$" value = true -> resolveVariables h value args = value.
Proof. intros Hs. unfold resolveVariables. now apply passes_free. Qed.

Lemma resolveVariables_without_dollar_witness :
  resolveVariables quietHost "path:**/test/*.ts" noArgs
  = "path:**/test/*.ts".
Proof.
  exact (resolveVariables_without_dollar quietHost noArgs
           "path:**/test/*.ts" eq_refl).
Defined.

(** X13.  A token [path:<pattern>] that is not yet in the cache is
    resolved, and the resolution keeps the prefix [path:], so that the
    path matcher is the one found for it; the matcher then decides alone,
    on the file path of the tab (the empty string for a tab without one)
    and the resolved pattern with the white space around it taken off.  A
    pattern without [$] is used as it is. *)
Theorem path_token_decided_by_matcher
    (h : Host) (c : gmap string string) (tab : Tab) (pat : string) :
  c !! ("path:" +:+ pat) = None ->
  exists resolved,
    resolveVariables h ("path:" +:+ pat) noArgs = "path:" +:+ resolved
    /\ (freeOf "$" pat = true -> resolved = pat)
    /\ filterStep h c tab ("path:" +:+ pat)
       = (<["path:" +:+ pat := "path:" +:+ resolved]> c,
          isMatch h (default "" (fsPath <$> getTabUri tab)) (trim resolved)).
Proof.
  intros Hfresh.
  destruct (passes_keep_prefix h noArgs variables.entries "path:" eq_refl pat)
    as [resolved Hres].
  fold (resolveVariables h ("path:" +:+ pat) noArgs) in Hres.
  exists resolved. split; [exact Hres|]. split.
  - intros Hpat.
    unfold resolveVariables in Hres. rewrite passes_free in Hres.
    + now apply (String.app_inj "path:") in Hres.
    + now rewrite freeOf_app, Hpat.
  - assert (Hcustom :
      customStep h c tab ("path:" +:+ pat)
      = (<["path:" +:+ pat := "path:" +:+ resolved]> c,
         isMatch h (default "" (fsPath <$> getTabUri tab)) (trim resolved))).
    { unfold customStep.
      rewrite hasPrefix_custom by (right; left; reflexivity).
      unfold resolvedFilter. cbn [existsb].
      rewrite (startsWith_app "path:"). cbn [orb].
      rewrite Hfresh, Hres, findCustomMap_path. cbn [matchTab].
      unfold matchPath.
      now rewrite (startsWith_app "path:"), removeFirst_app. }
    unfold filterStep. rewrite Hcustom.
    change (registryStep h tab ("path:" +:+ pat)) with (@Returns bool false).
    now destruct (isMatch h _ (trim resolved)) as [[|]|e].
Qed.

Lemma path_token_decided_by_matcher_witness :
  exists resolved,
    resolveVariables quietHost ("path:" +:+ "${cwd}/*.ts") noArgs
    = "path:" +:+ resolved
    /\ (freeOf "$" "${cwd}/*.ts" = true -> resolved = "${cwd}/*.ts")
    /\ filterStep quietHost ∅ (textTab 1 "/work/a.ts" false true)
                  ("path:" +:+ "${cwd}/*.ts")
       = (<["path:" +:+ "${cwd}/*.ts" := "path:" +:+ resolved]> ∅,
          isMatch quietHost
                  (default "" (fsPath <$>
                     getTabUri (textTab 1 "/work/a.ts" false true)))
                  (trim resolved)).
Proof.
  exact (path_token_decided_by_matcher quietHost ∅
           (textTab 1 "/work/a.ts" false true) "${cwd}/*.ts" eq_refl).
Defined.

(** ** Pinned tabs *)

Lemma firstDecisive_not_false (outcomes : list (Outcome bool)) :
  In (Returns true) outcomes -> firstDecisive outcomes <> Returns false.
Proof.
  induction outcomes as [|[[|]|e] rest IH]; cbn [firstDecisive];
    intros Hin; try discriminate.
  - destruct Hin.
  - destruct Hin as [Heq|Hin]; [discriminate Heq|now apply IH].
Qed.

Lemma pinned_token_blocks (h : Host) (c : gmap string string) (tab : Tab) :
  isPinned tab = true -> tokenOutcome h c tab "pinned" = Returns true.
Proof.
  intros Hp. unfold tokenOutcome, filterStep, customStep, registryStep.
  cbn. now rewrite Hp.
Qed.

Lemma pinned_never_free
    (h : Host) (c : gmap string string) (tab : Tab) (options : Options) :
  In "pinned" (blockMoveFilters options) ->
  isPinned tab = true ->
  snd (isBlockingPredicate h c tab options) <> Returns false.
Proof.
  intros Hin Hp. unfold isBlockingPredicate.
  rewrite blockingLoop_firstDecisive. apply firstDecisive_not_false.
  apply in_map_iff. exists "pinned". split; [|exact Hin].
  now apply pinned_token_blocks.
Qed.

(** X14.  When the filter list holds ["pinned"], the predicate never
    answers "not blocking" for a pinned tab: it returns [true], or a token
    before ["pinned"] raises. *)
Theorem isBlockingPredicate_pinned
    (h : Host) (c : gmap string string) (tab : Tab) (options : Options) :
  In "pinned" (blockMoveFilters options) ->
  isPinned tab = true ->
  snd (isBlockingPredicate h c tab options) <> Returns false.
Proof.
  intros Hin Hp. unfold isBlockingPredicate.
  rewrite blockingLoop_firstDecisive.
  intros Hfalse. apply (firstDecisive_not_false _) in Hfalse; [exact Hfalse|].
  apply in_map_iff. exists "pinned". split; [|exact Hin].
  now apply pinned_token_blocks.
Qed.

Lemma isBlockingPredicate_pinned_witness :
  snd (isBlockingPredicate quietHost ∅ (mkTab 1 "P" true)
         (optionsWithFilters ["dirty"; "pinned"]))
  <> Returns false.
Proof.
  apply isBlockingPredicate_pinned; [right; left; reflexivity|reflexivity].
Defined.

(** ** The position calculator run with the closure *)

Section WithClosure.

Local Open Scope list_scope.

Variable h : Host.
Variable options : Options.

Lemma isBlockingPredicate_samePatterns c c' (t : Tab) :
  samePatterns h c c' ->
  snd (isBlockingPredicate h c' t options)
  = snd (isBlockingPredicate h c t options).
Proof.
  intros Hs. unfold isBlockingPredicate. rewrite !blockingLoop_firstDecisive.
  f_equal. apply map_ext. intros f. symmetry.
  now apply tokenOutcome_samePatterns.
Qed.

Lemma error_is_TypeError (e : JsError) : e = TypeError.
Proof. now destruct e. Qed.

(** The filter keeps the tabs the predicate blocks, unless a call
    raises. *)
Lemma filterBlocking_outcome c0 tabs : forall c,
  samePatterns h c0 c ->
  snd (filterBlocking h c options tabs)
  = (if quietOn h c0 options tabs
     then Returns (List.filter (fun t => answerOf h c0 t options) tabs)
     else Throws TypeError)
  /\ samePatterns h c0 (fst (filterBlocking h c options tabs)).
Proof.
  induction tabs as [|t rest IH]; intros c Hs; [now split|].
  cbn [filterBlocking quietOn forallb List.filter].
  pose proof (isBlockingPredicate_samePatterns c0 c t Hs) as Hsnd.
  pose proof (blockingLoop_samePatterns h t c (blockMoveFilters options))
    as Hfst.
  fold (isBlockingPredicate h c t options) in Hfst.
  unfold answerOf at 1.
  destruct (isBlockingPredicate h c t options) as [c1 [b|e]];
    cbn [fst snd] in *; rewrite <- Hsnd; cbn [raises negb andb blocks].
  - assert (Hs1 : samePatterns h c0 c1)
      by (eapply samePatterns_trans; eassumption).
    destruct (IH c1 Hs1) as [IHsnd IHfst].
    destruct (filterBlocking h c1 options rest) as [c2 [kept|e]];
      cbn [fst snd] in *; fold (quietOn h c0 options rest);
      destruct (quietOn h c0 options rest); try discriminate.
    + injection IHsnd as ->. now split.
    + rewrite (error_is_TypeError e). now split.
  - rewrite (error_is_TypeError e). split; [reflexivity|].
    eapply samePatterns_trans; eassumption.
Qed.

End WithClosure.

(** What a run with the closure gives, case by case. *)
Lemma getStackPositionM_outcome
    (h : Host) (c : gmap string string) (activeIndex : Z)
    (tabs : list Tab) (options : Options) :
  snd (getStackPositionM h c activeIndex tabs options)
  = match tabAt tabs activeIndex with
    | None => Returns None
    | Some t =>
        match snd (isBlockingPredicate h c t options) with
        | Throws _ => Throws TypeError
        | Returns true => Returns None
        | Returns false =>
            if quietOn h c options tabs
            then Returns (moveDistance activeIndex tabs
                            (blockingTabIndexes tabs (answerOf h c) options)
                            options)
            else Throws TypeError
        end
    end.
Proof.
  unfold getStackPositionM.
  destruct (tabAt tabs activeIndex) as [t|]; [|reflexivity].
  pose proof (blockingLoop_samePatterns h t c (blockMoveFilters options))
    as Hfst.
  fold (isBlockingPredicate h c t options) in Hfst.
  destruct (isBlockingPredicate h c t options) as [c1 [[|]|e]];
    cbn [fst snd] in *; [reflexivity| |now rewrite (error_is_TypeError e)].
  unfold blockingTabIndexesM, blockingTabIndexes.
  destruct (filterBlocking_outcome h options c tabs c1 Hfst) as [Hsnd _].
  destruct (filterBlocking h c1 options tabs) as [c2 [kept|e]];
    cbn [snd] in *; destruct (quietOn h c options tabs);
    try discriminate;
    [now injection Hsnd as ->|now rewrite (error_is_TypeError e)].
Qed.

(** X15.  Run with the closure of the class, [getStackPosition]
    either raises or returns what the pure calculator returns for the
    predicate "the closure answers [true]" taken on the cache at the
    start: the filling of the cache during the run changes no answer.  It
    returns whenever no call on a tab of the sequence raises. *)
Theorem getStackPositionM_refines
    (h : Host) (c : gmap string string) (activeIndex : Z)
    (tabs : list Tab) (options : Options) :
  (forall r,
      snd (getStackPositionM h c activeIndex tabs options) = Returns r ->
      r = getStackPosition activeIndex tabs (answerOf h c) options)
  /\ (quietOn h c options tabs = true ->
      snd (getStackPositionM h c activeIndex tabs options)
      = Returns (getStackPosition activeIndex tabs (answerOf h c) options)).
Proof.
  rewrite getStackPositionM_outcome, getStackPosition_moveDistance.
  destruct (tabAt tabs activeIndex) as [t|] eqn:Hat.
  2:{ split; [now intros r [= <-]|reflexivity]. }
  assert (Hquiet_t : quietOn h c options tabs = true ->
                     raises (snd (isBlockingPredicate h c t options)) = false).
  { intros Hq. unfold quietOn in Hq. rewrite forallb_forall in Hq.
    apply negb_true_iff, Hq. apply tabAt_Some in Hat as [_ Hat].
    apply list_elem_of_In, list_elem_of_lookup.
    now exists (Z.to_nat activeIndex). }
  assert (Hans : answerOf h c t options
                 = blocks (snd (isBlockingPredicate h c t options)))
    by reflexivity.
  rewrite Hans. clear Hans.
  destruct (snd (isBlockingPredicate h c t options)) as [[|]|e];
    cbn [blocks raises] in *.
  - split; [now intros r [= <-]|reflexivity].
  - destruct (quietOn h c options tabs).
    + split; [now intros r [= <-]|reflexivity].
    + split; discriminate.
  - split; [discriminate|]. intros Hq. specialize (Hquiet_t Hq).
    discriminate.
Qed.

Lemma getStackPositionM_refines_witness :
  snd (getStackPositionM quietHost ∅ 3 scenarioTabs
         (optionsTowards (Some "left") (Some 0%Z)))
  = Returns (Some 1%Z).
Proof.
  exact (proj2 (getStackPositionM_refines quietHost ∅ 3 scenarioTabs
                  (optionsTowards (Some "left") (Some 0%Z))) eq_refl).
Defined.

(** ** The command *)

Lemma findIndexFrom_found (k : Z) (tabs : list Tab) :
  (findIndexFrom k tabs = -1
   /\ forall t, In t tabs -> isActive t = false)%Z
  \/ ((k <= findIndexFrom k tabs < k + Z.of_nat (length tabs))%Z
      /\ exists t, tabs !! Z.to_nat (findIndexFrom k tabs - k) = Some t
                   /\ isActive t = true).
Proof.
  revert k. induction tabs as [|x tabs IH]; intros k.
  - left. split; [reflexivity|]. intros t [].
  - cbn [findIndexFrom length]. destruct (isActive x) eqn:E.
    + right. split; [lia|]. exists x. rewrite Z.sub_diag. now split.
    + destruct (IH (k + 1)%Z) as [[Hnone Hall]|[Hr (t & Ht & Ha)]].
      * left. split; [exact Hnone|]. intros t [<-|Hin]; [exact E|].
        now apply Hall.
      * right. split; [lia|]. exists t. split; [|exact Ha].
        replace (Z.to_nat (findIndexFrom (k + 1) tabs - k))
          with (S (Z.to_nat (findIndexFrom (k + 1) tabs - (k + 1)))) by lia.
        exact Ht.
Qed.

Lemma findIndexFrom_none (tabs : list Tab) :
  (forall t, In t tabs -> isActive t = false) ->
  findIndexFrom 0 tabs = (-1)%Z.
Proof.
  intros Hall. destruct (findIndexFrom_found 0 tabs) as [[H _]|[Hr Hex]];
    [exact H|].
  destruct Hex as (t & Ht & Ha).
  rewrite Hall in Ha; [discriminate|].
  apply list_elem_of_In, list_elem_of_lookup. eauto.
Qed.

Lemma tabAt_findIndex (tabs : list Tab) :
  findIndexFrom 0 tabs <> (-1)%Z ->
  exists t, tabAt tabs (findIndexFrom 0 tabs) = Some t /\ isActive t = true.
Proof.
  intros Hne. destruct (findIndexFrom_found 0 tabs) as [[H _]|[Hr Hex]];
    [congruence|].
  destruct Hex as (t & Ht & Ha). exists t. split; [|exact Ha].
  unfold tabAt. destruct (Z.ltb_spec (findIndexFrom 0 tabs) 0); [lia|].
  now rewrite Z.sub_0_r in Ht.
Qed.

(** X16.  When [stackTab] sends a command, the command is a move "to
    position", by tab, of the first active tab of the group; its value is
    positive and is the distance the calculator gives for that tab with
    the options resolved for the tab's resource. *)
Theorem stackTab_command
    (this : TabStacker) (h : Host) (c : gmap string string)
    (tabs : list Tab) (m : MoveArgs) :
  snd (stackTab this h c (Some tabs)) = Returns (Some m) ->
  exists t,
    tabAt tabs (findIndexFrom 0 tabs) = Some t
    /\ isActive t = true
    /\ move_to m = "position" /\ move_by m = "tab"
    /\ (0 < move_value m)%Z
    /\ getStackPosition (findIndexFrom 0 tabs) tabs (answerOf h c)
                        (stackOptions this (getTabUri t))
       = Some (move_value m).
Proof.
  unfold stackTab.
  destruct (Z.eqb_spec (findIndexFrom 0 tabs) (-1)) as [|Hne];
    [discriminate|].
  destruct (tabAt_findIndex tabs Hne) as (t & Hat & Hactive).
  rewrite Hat. intros Hrun. exists t.
  pose proof (getStackPositionM_outcome h c (findIndexFrom 0 tabs) tabs
                (stackOptions this (getTabUri t))) as Hout.
  rewrite Hat in Hout. rewrite getStackPosition_moveDistance, Hat.
  assert (Hans : answerOf h c t (stackOptions this (getTabUri t))
                 = blocks (snd (isBlockingPredicate h c t
                                  (stackOptions this (getTabUri t)))))
    by reflexivity.
  rewrite Hans. clear Hans.
  destruct (getStackPositionM h c (findIndexFrom 0 tabs) tabs
              (stackOptions this (getTabUri t))) as [c' [[v|]|e]];
    cbn [snd] in *; try discriminate.
  destruct (Z.leb_spec v 0); [discriminate|].
  injection Hrun as <-. cbn [move_to move_by move_value].
  repeat split; try assumption.
  destruct (snd (isBlockingPredicate h c t
                   (stackOptions this (getTabUri t)))) as [[|]|e];
    try discriminate. cbn [blocks].
  destruct (quietOn h c (stackOptions this (getTabUri t)) tabs);
    [|discriminate].
  now injection Hout as ->.
Qed.

(** X17.  [stackTab] never sends a command for a pinned active tab,
    whatever the configuration holds. *)
Theorem stackTab_keeps_pinned
    (this : TabStacker) (h : Host) (c : gmap string string)
    (tabs : list Tab) (t : Tab) :
  tabAt tabs (findIndexFrom 0 tabs) = Some t ->
  isPinned t = true ->
  forall m, snd (stackTab this h c (Some tabs)) <> Returns (Some m).
Proof.
  intros Hat Hpinned m. unfold stackTab.
  destruct (Z.eqb_spec (findIndexFrom 0 tabs) (-1)); [discriminate|].
  rewrite Hat. unfold getStackPositionM. rewrite Hat.
  pose proof (pinned_never_free h c t (stackOptions this (getTabUri t))
                (effective_filters_hold_pinned this _) Hpinned) as Hblocked.
  destruct (isBlockingPredicate h c t (stackOptions this (getTabUri t)))
    as [c1 [[|]|e]]; cbn [snd] in *; try discriminate.
  congruence.
Qed.

(** X18.  With no active tab in the group, or no group, [stackTab]
    sends nothing, calls no filter and leaves the cache as it was. *)
Theorem stackTab_without_active_tab
    (this : TabStacker) (h : Host) (c : gmap string string) :
  stackTab this h c None = (c, Returns None)
  /\ forall tabs,
       (forall t, In t tabs -> isActive t = false) ->
       stackTab this h c (Some tabs) = (c, Returns None).
Proof.
  split; [reflexivity|]. intros tabs Hall. unfold stackTab.
  now rewrite (findIndexFrom_none tabs Hall).
Qed.

Lemma stackOptions_withEnabled (b : bool) (this : TabStacker)
    (uri : option Uri) :
  stackOptions (withEnabled b this) uri = stackOptions this uri.
Proof. destruct uri; reflexivity. Qed.

(** X19.  [stackTab] does not read the [enabled] setting: the command
    is the same whether every [enabled] is [false] or [true]. *)
Theorem stackTab_ignores_enabled
    (b : bool) (this : TabStacker) (h : Host) (c : gmap string string)
    (activeGroupTabs : option (list Tab)) :
  stackTab (withEnabled b this) h c activeGroupTabs
  = stackTab this h c activeGroupTabs.
Proof.
  unfold stackTab. destruct activeGroupTabs as [tabs|]; [|reflexivity].
  destruct (findIndexFrom 0 tabs =? -1)%Z; [reflexivity|].
  destruct (tabAt tabs (findIndexFrom 0 tabs)) as [t|]; [|reflexivity].
  now rewrite stackOptions_withEnabled.
Qed.

Lemma stackTab_command_witness :
  exists t,
    tabAt activeGroup (findIndexFrom 0 activeGroup) = Some t
    /\ isActive t = true
    /\ move_to {| move_to := "position"; move_by := "tab";
                  move_value := 1 |} = "position"
    /\ move_by {| move_to := "position"; move_by := "tab";
                  move_value := 1 |} = "tab"
    /\ (0 < 1)%Z
    /\ getStackPosition (findIndexFrom 0 activeGroup) activeGroup
                        (answerOf quietHost ∅)
                        (stackOptions leftStacker (getTabUri t))
       = Some 1%Z.
Proof.
  exact (stackTab_command leftStacker quietHost ∅ activeGroup
           {| move_to := "position"; move_by := "tab"; move_value := 1 |}
           eq_refl).
Defined.

Lemma stackTab_keeps_pinned_witness :
  snd (stackTab leftStacker quietHost ∅
         (Some [textTab 1 "/a" true true; textTab 2 "/b" false false]))
  <> Returns (Some {| move_to := "position"; move_by := "tab";
                      move_value := 1 |}).
Proof.
  exact (stackTab_keeps_pinned leftStacker quietHost ∅
           [textTab 1 "/a" true true; textTab 2 "/b" false false]
           (textTab 1 "/a" true true) eq_refl eq_refl
           {| move_to := "position"; move_by := "tab"; move_value := 1 |}).
Defined.

Lemma stackTab_without_active_tab_witness :
  stackTab leftStacker quietHost ∅ (Some scenarioTabs) = (∅, Returns None).
Proof.
  apply (proj2 (stackTab_without_active_tab leftStacker quietHost ∅)).
  intros t Hin. cbn in Hin.
  repeat (destruct Hin as [<-|Hin]; [reflexivity|]). destruct Hin.
Defined.

(** ** The blocking predicate without a raise *)

(** X20.  When no token of the list raises for the tab, the predicate
    returns the disjunction of the decisions for the tokens, and lists
    that hold the same tokens, in any order and with any repetition, get
    the same answer. *)
Theorem isBlockingPredicate_without_raise
    (h : Host) (c : gmap string string) (tab : Tab) (options : Options) :
  (forall f, In f (blockMoveFilters options) ->
             raises (tokenOutcome h c tab f) = false) ->
  snd (isBlockingPredicate h c tab options)
  = Returns (existsb (fun f => blocks (tokenOutcome h c tab f))
                     (blockMoveFilters options))
  /\ (forall options',
        (forall f, In f (blockMoveFilters options)
                   <-> In f (blockMoveFilters options')) ->
        snd (isBlockingPredicate h c tab options')
        = snd (isBlockingPredicate h c tab options)).
Proof.
  intros Hquiet. split.
  - now apply isBlockingPredicate_disjunction.
  - intros options' Hsame. symmetry.
    now apply isBlockingPredicate_same_tokens.
Qed.

Lemma isBlockingPredicate_without_raise_witness :
  snd (isBlockingPredicate quietHost ∅ (mkTab 1 "P" true)
         (optionsWithFilters ["dirty"; "pinned"]))
  = Returns true
  /\ snd (isBlockingPredicate quietHost ∅ (mkTab 1 "P" true)
            (optionsWithFilters ["pinned"; "dirty"; "pinned"]))
     = snd (isBlockingPredicate quietHost ∅ (mkTab 1 "P" true)
              (optionsWithFilters ["dirty"; "pinned"])).
Proof.
  assert (Hquiet : forall f,
    In f (blockMoveFilters (optionsWithFilters ["dirty"; "pinned"])) ->
    raises (tokenOutcome quietHost ∅ (mkTab 1 "P" true) f) = false).
  { intros f [<-|[<-|[]]]; reflexivity. }
  destruct (isBlockingPredicate_without_raise quietHost ∅ (mkTab 1 "P" true)
              (optionsWithFilters ["dirty"; "pinned"]) Hquiet) as [Hd Hs].
  split; [exact Hd|]. apply Hs. cbn. intros f. tauto.
Defined.

Lemma unknownToken_spec (f : string) :
  unknownToken f = true ->
  hasPrefix f = false /\ property filterMapOwn f = None
  /\ property objectPrototype f = None.
Proof.
  unfold unknownToken. intros H.
  apply andb_prop in H as [H H3]. apply andb_prop in H as [H1 H2].
  apply negb_true_iff in H1. apply negb_true_iff in H2.
  apply negb_true_iff in H3.
  apply bool_decide_eq_false in H2. apply bool_decide_eq_false in H3.
  repeat split; try assumption.
  - destruct (property filterMapOwn f); [|reflexivity].
    exfalso. apply H2. eauto.
  - destruct (property objectPrototype f); [|reflexivity].
    exfalso. apply H3. eauto.
Qed.

(** X21.  Tokens that no custom prefix starts and that neither the
    registry nor [Object.prototype] knows are passed over without a
    trace: a list of such tokens blocks no tab, raises nothing and leaves
    the cache alone, and such a token put in front of a list changes
    nothing. *)
Theorem unknown_tokens_block_nothing
    (h : Host) (c : gmap string string) (tab : Tab)
    (unknown rest : list string) (options : Options) :
  forallb unknownToken unknown = true ->
  blockMoveFilters options = (unknown ++ rest)%list ->
  isBlockingPredicate h c tab options
  = isBlockingPredicate h c tab (optionsWithFilters rest).
Proof.
  intros Hu Ho. unfold isBlockingPredicate. rewrite Ho.
  cbn [optionsWithFilters blockMoveFilters]. clear Ho.
  induction unknown as [|f unknown IH]; [reflexivity|].
  cbn [forallb] in Hu. apply andb_prop in Hu as [Hf Hu].
  apply unknownToken_spec in Hf as (H1 & H2 & H3).
  cbn [app blockingLoop].
  rewrite (unknown_token_passed_over h c tab f H1 H2 H3).
  now apply IH.
Qed.

Lemma unknown_tokens_block_nothing_witness :
  isBlockingPredicate quietHost ∅ (mkTab 1 "P" false)
    (optionsWithFilters ["pined"; "Dirty"; "tittle:x"])
  = (∅, Returns false).
Proof.
  exact (unknown_tokens_block_nothing quietHost ∅ (mkTab 1 "P" false)
           ["pined"; "Dirty"; "tittle:x"] []
           (optionsWithFilters ["pined"; "Dirty"; "tittle:x"])
           eq_refl eq_refl).
Defined.

(** ** Documents *)

Lemma whenPathIs_Some uri d d' :
  whenPathIs uri d = Some d' -> d = Some d' /\ pathIs uri d' = true.
Proof.
  unfold whenPathIs. destruct d as [x|]; [|discriminate].
  destruct (pathIs uri x) eqn:E; [|discriminate]. intros [= <-]. now split.
Qed.

Lemma whenPathIs_None uri d :
  whenPathIs uri d = None ->
  forall x, In x (option_list d) -> pathIs uri x = false.
Proof.
  unfold whenPathIs. destruct d as [y|]; [|intros _ x []].
  destruct (pathIs uri y) eqn:E; [discriminate|].
  intros _ x [<-|[]]. exact E.
Qed.

(** X22.  [getDocument] answers [undefined] exactly when the cache has
    no live entry for the path and no document the editor knows (the
    active text editor's, the active notebook, those of the visible
    editors, the open text documents) has the path; and a document found
    outside the cache is one of those and has the path asked for. *)
Theorem getDocument_found (h : Host) (uri : Uri) :
  (getDocument h uri = None
   <-> documentCache h !! uri_path uri = None
       /\ forall d, In d (knownDocuments h) -> pathIs uri d = false)
  /\ (forall d,
        documentCache h !! uri_path uri = None ->
        getDocument h uri = Some d ->
        In d (knownDocuments h)
        /\ uri_path (doc_uri d) = uri_path uri).
Proof.
  unfold getDocument, knownDocuments.
  destruct (documentCache h !! uri_path uri) as [cached|].
  { split; [split; [discriminate|intros [? _]; discriminate]|].
    intros d H. discriminate H. }
  destruct (whenPathIs uri (activeTextEditor h)) as [d1|] eqn:E1.
  { apply whenPathIs_Some in E1 as [E1 P1]. rewrite E1. split.
    - split; [discriminate|]. intros [_ H].
      rewrite (H d1) in P1; [discriminate|]. now left.
    - intros d _ [= <-]. split; [now left|]. now apply String.eqb_eq. }
  pose proof (whenPathIs_None _ _ E1) as N1.
  destruct (whenPathIs uri (activeNotebookEditor h)) as [d2|] eqn:E2.
  { apply whenPathIs_Some in E2 as [E2 P2]. rewrite E2. split.
    - split; [discriminate|]. intros [_ H].
      rewrite (H d2) in P2; [discriminate|].
      apply in_or_app. right. now left.
    - intros d _ [= <-]. split; [|now apply String.eqb_eq].
      apply in_or_app. right. now left. }
  pose proof (whenPathIs_None _ _ E2) as N2.
  destruct (List.find (pathIs uri) (visibleTextEditors h)) as [d3|] eqn:E3.
  { apply find_some in E3 as [I3 P3]. split.
    - split; [discriminate|]. intros [_ H].
      rewrite (H d3) in P3; [discriminate|].
      apply in_or_app. right. apply in_or_app. right.
      apply in_or_app. now left.
    - intros d _ [= <-]. split; [|now apply String.eqb_eq].
      apply in_or_app. right. apply in_or_app. right.
      apply in_or_app. now left. }
  pose proof (find_none _ _ E3) as N3.
  destruct (List.find (pathIs uri) (textDocuments h)) as [d4|] eqn:E4.
  { apply find_some in E4 as [I4 P4]. split.
    - split; [discriminate|]. intros [_ H].
      rewrite (H d4) in P4; [discriminate|].
      apply in_or_app. right. apply in_or_app. right.
      apply in_or_app. now right.
    - intros d _ [= <-]. split; [|now apply String.eqb_eq].
      apply in_or_app. right. apply in_or_app. right.
      apply in_or_app. now right. }
  pose proof (find_none _ _ E4) as N4.
  split; [|intros d _ H; discriminate H].
  split; [|reflexivity]. intros _. split; [reflexivity|].
  intros d Hd. apply in_app_or in Hd as [Hd|Hd]; [now apply N1|].
  apply in_app_or in Hd as [Hd|Hd]; [now apply N2|].
  apply in_app_or in Hd as [Hd|Hd]; [now apply N3|now apply N4].
Qed.

Lemma getDocument_found_witness :
  getDocument quietHost {| uri_path := "/a"; fsPath := "/a" |} = None.
Proof.
  apply (proj1 (getDocument_found quietHost
                  {| uri_path := "/a"; fsPath := "/a" |})).
  split; [reflexivity|]. intros d [].
Defined.

(** ** The throttle *)

Lemma throttleRun_count (events : list ThrottleEvent) :
  forall s final n,
    timers s = (if inThrottle s then 1 else 0)%nat ->
    throttleRun s events = Some (final, n) ->
    timers final = (if inThrottle final then 1 else 0)%nat
    /\ (n + timers s = firings events + timers final)%nat.
Proof.
  induction events as [|e events IH]; intros s final n Hinv Hrun.
  - injection Hrun as <- <-. split; [exact Hinv|reflexivity].
  - cbn [throttleRun] in Hrun.
    destruct (throttleStep s e) as [[s' ran]|] eqn:Hstep; [|discriminate].
    destruct (throttleRun s' events) as [[f m]|] eqn:R; [|discriminate].
    injection Hrun as <- <-.
    assert (Hs' : timers s' = (if inThrottle s' then 1 else 0)%nat
                  /\ ((if ran then 1 else 0) + timers s
                      = (match e with TimerFired => 1 | Called _ => 0 end)
                        + timers s')%nat).
    { destruct e as [raising|]; cbn [throttleStep] in Hstep.
      - destruct (inThrottle s) eqn:E; [|destruct raising];
          injection Hstep as <- <-.
        + rewrite E. split; [exact Hinv|reflexivity].
        + rewrite E. split; [exact Hinv|reflexivity].
        + cbn [inThrottle timers]. split; lia.
      - destruct (timers s) as [|k] eqn:T; [discriminate|].
        injection Hstep as <- <-. cbn [inThrottle timers].
        destruct (inThrottle s); split; lia. }
    destruct Hs' as [Hinv' Hone].
    destruct (IH s' f m Hinv' R) as [H1 H2]. split; [exact H1|].
    unfold firings in *. destruct e, ran; cbn [List.filter length] in *; lia.
Qed.

(** X23.  A throttled function has at most one timer set at any time,
    and over any run of calls and timer firings started afresh the
    applications of [func] that return are as many as the timers that have
    fired, plus one when a timer is still set at the end: the calls made
    while a timer is set are dropped. *)
Theorem throttle_applies_once_per_timer
    (events : list ThrottleEvent) (final : Throttle) (applied : nat) :
  throttleRun newThrottle events = Some (final, applied) ->
  timers final = (if inThrottle final then 1 else 0)%nat
  /\ applied = (firings events + timers final)%nat
  /\ (applied <= S (firings events))%nat.
Proof.
  intros Hrun.
  destruct (throttleRun_count events newThrottle final applied eq_refl Hrun)
    as [Hinv Hcount].
  cbn [newThrottle timers] in Hcount. split; [exact Hinv|].
  split; [lia|]. destruct (inThrottle final); lia.
Qed.

(** A call in which [func] raises, four calls in a row, the timer,
    two more calls: [func] returns twice. *)
Lemma throttle_applies_once_per_timer_witness :
  (2 = firings [Called true; Called false; Called false; Called false;
                Called false; TimerFired; Called false; Called false]
       + 1)%nat.
Proof.
  exact (proj1 (proj2 (throttle_applies_once_per_timer
           [Called true; Called false; Called false; Called false;
            Called false; TimerFired; Called false; Called false]
           {| inThrottle := true; timers := 1 |} 2 eq_refl))).
Defined.

(** ** Last segments *)

Lemma lastSegmentFrom_free (sep : ascii) (s : string) : forall acc,
  freeOf sep acc = true -> freeOf sep (lastSegmentFrom sep acc s) = true.
Proof.
  induction s as [|c s IH]; intros acc Hacc; [exact Hacc|].
  cbn [lastSegmentFrom]. destruct (Ascii.eqb c sep) eqn:E.
  - now apply IH.
  - apply IH. rewrite freeOf_app, Hacc. cbn [freeOf]. now rewrite E.
Qed.

Lemma lastSegmentFrom_whole (sep : ascii) (s : string) : forall acc,
  freeOf sep s = true -> lastSegmentFrom sep acc s = acc +:+ s.
Proof.
  induction s as [|c s IH]; intros acc Hs.
  - cbn. now rewrite app_empty_r.
  - cbn [freeOf] in Hs. apply andb_prop in Hs as [Hc Hs].
    apply negb_true_iff in Hc. cbn [lastSegmentFrom]. rewrite Hc.
    rewrite IH by assumption. now rewrite app_assoc_string.
Qed.

Lemma lastSegmentFrom_behind (sep : ascii) (a b : string) : forall acc,
  lastSegmentFrom sep acc (a +:+ String sep b)
  = lastSegmentFrom sep EmptyString b.
Proof.
  induction a as [|c a IH]; intros acc.
  - cbn [String.append lastSegmentFrom]. now rewrite Ascii.eqb_refl.
  - cbn [String.append lastSegmentFrom]. destruct (Ascii.eqb c sep); apply IH.
Qed.

(** X24.  The name of the configuration section taken from the
    extension's identifier is never empty and holds no dot; for an
    identifier [publisher.name] it is [name], and it is ["stack-tabs"]
    when nothing follows the last dot. *)
Theorem configIdOf_section (extensionId : string) :
  configIdOf extensionId <> ""
  /\ freeOf "." (configIdOf extensionId) = true
  /\ (forall publisher name,
        extensionId = publisher +:+ String "." name ->
        freeOf "." name = true ->
        configIdOf extensionId = orString (Some name) "stack-tabs").
Proof.
  unfold configIdOf, lastSegment.
  pose proof (lastSegmentFrom_free "." extensionId EmptyString eq_refl) as Hf.
  repeat split.
  - destruct (lastSegmentFrom "." "" extensionId); discriminate.
  - destruct (lastSegmentFrom "." "" extensionId); [reflexivity|exact Hf].
  - intros publisher name -> Hname.
    now rewrite lastSegmentFrom_behind, lastSegmentFrom_whole.
Qed.

Lemma configIdOf_section_witness :
  configIdOf "isplasher.stack-tabs-fork" = "stack-tabs-fork"
  /\ configIdOf "publisher." = "stack-tabs".
Proof.
  split.
  - exact (proj2 (proj2 (configIdOf_section "isplasher.stack-tabs-fork"))
             "isplasher" "stack-tabs-fork" eq_refl eq_refl).
  - exact (proj2 (proj2 (configIdOf_section "publisher."))
             "publisher" "" eq_refl eq_refl).
Defined.

(** X25.  The variable [workspaceFolderBasename] holds no path
    separator, and when the workspace folder is [dir], a separator and a
    name without separator, it is that name. *)
Theorem workspaceFolderBasename_last_segment (h : Host) (args : Args) :
  freeOf (path_sep h) (variables.workspaceFolderBasename h args) = true
  /\ (forall dir name,
        variables.workspaceFolder h args = dir +:+ String (path_sep h) name ->
        freeOf (path_sep h) name = true ->
        variables.workspaceFolderBasename h args = name).
Proof.
  unfold variables.workspaceFolderBasename, lastSegment. split.
  - now apply lastSegmentFrom_free.
  - intros dir name -> Hname.
    now rewrite lastSegmentFrom_behind, lastSegmentFrom_whole.
Qed.

Lemma workspaceFolderBasename_last_segment_witness :
  variables.workspaceFolderBasename quietHost
    {| arg_document := None;
       arg_workspaceFolder :=
         Some {| wf_uri := {| uri_path := "/home/u/proj";
                              fsPath := "/home/u/proj" |} |} |}
  = "proj".
Proof.
  exact (proj2 (workspaceFolderBasename_last_segment quietHost
           {| arg_document := None;
              arg_workspaceFolder :=
                Some {| wf_uri := {| uri_path := "/home/u/proj";
                                     fsPath := "/home/u/proj" |} |} |})
           "/home/u" "proj" eq_refl eq_refl).
Defined.
